(** * Sharded object storage: the router, its Minio adapter and node discovery

    A shallow embedding of [internal/storage/storage.go] (the
    [DistributedStorage] router, node discovery, [Node.Debug]), of the Minio
    adapter that lives in the same package, of the start-up sequence of
    [cmd/main.go], and of the handlers of [internal/gateway].

    Conventions.
    - A Go [string] is a byte sequence: [string] of the Standard Library.
      A [[]byte] is a [list byte].
    - A Go [error] is modelled by its [Error()] text; [fmt.Errorf] with [%w]
      produces the formatted text.
    - A call either returns a value, returns an error, panics (a nil
      dereference, a library panic) or ends the process ([log.Fatalf]):
      the type [outcome].
    - [map[string]T] is a [gmap string T]; a nil map reads like the empty one.
    - The external collaborators (the S3 servers behind the Minio client, the
      container runtime, the hash function, and the consistent-hashing
      module the router imports) are not part of the repository; each is
      modelled below in a part of its own, and what is assumed about it is
      written at its head. *)

From Stdlib Require Import ZArith Lia ZifyBool Bool Ascii String DecimalString QArith Qround.
From Stdlib.Strings Require Import Byte.
From stdpp Require Import gmap strings list fin_maps sorting.

Local Open Scope string_scope.
Local Open Scope list_scope.
Local Open Scope Z_scope.

(** ** Results of a call *)

Inductive outcome (A : Type) : Type :=
| Ok (a : A)
| Err (e : string)
| Panic (msg : string)
| Exit (code : Z).
Arguments Ok {A} a.
Arguments Err {A} e.
Arguments Panic {A} msg.
Arguments Exit {A} code.

Definition bind {A B : Type} (m : outcome A) (k : A -> outcome B) : outcome B :=
  match m with
  | Ok a => k a
  | Err e => Err e
  | Panic msg => Panic msg
  | Exit c => Exit c
  end.

Notation "'let!' x ':=' m 'in' k" := (bind m (fun x => k))
  (at level 10, x pattern, m at level 100, k at level 200).

(** The text of the runtime panic raised by a nil dereference. *)
Definition nilDeref : string :=
  "runtime error: invalid memory address or nil pointer dereference".

(** ** Go's [strings] and [fmt] helpers used by the package *)

(** [strings.Contains(s, substr)]: [substr] occurs in [s] at some offset. *)
Fixpoint Contains (s substr : string) : bool :=
  String.prefix substr s ||
  match s with
  | EmptyString => false
  | String _ s' => Contains s' substr
  end.

(** [strings.Repeat(s, count)]. *)
Fixpoint Repeat (s : string) (count : nat) : string :=
  match count with
  | O => ""
  | S n => s +:+ Repeat s n
  end.

(** The verb [%d] of [fmt.Sprintf]. *)
Definition itoa (z : Z) : string := NilZero.string_of_int (Z.to_int z).

(** [strings.Split(s, sep)] for a one-byte separator: the pieces between
    the occurrences of [sep], at least one piece. *)
Fixpoint Split (s : string) (sep : ascii) : list string :=
  match s with
  | EmptyString => [""]
  | String c s' =>
      if Ascii.eqb c sep then "" :: Split s' sep
      else match Split s' sep with
           | [] => [String c ""]
           | p :: ps => String c p :: ps
           end
  end.

(** [strings.TrimSpace(s)]: [s] without the white space at its two ends,
    first the leading one, then the trailing one.  White space is what
    [unicode.IsSpace] accepts.  In the UTF-8 encoding of a Go string these
    are the one-byte runes tab, line feed, vertical tab, form feed, carriage
    return and space, the two-byte runes U+0085 and U+00A0, and the
    three-byte runes U+1680, U+2000 to U+200A, U+2028, U+2029, U+202F,
    U+205F and U+3000.  Bytes that are not a valid encoding decode to
    U+FFFD, which is not white space. *)
Definition asciiSpace (a : ascii) : bool :=
  let n := N_of_ascii a in
  ((9 <=? n) && (n <=? 13) || (n =? 32))%N.

Definition spaceRune2 (a b : ascii) : bool :=
  let m := N_of_ascii b in
  ((N_of_ascii a =? 194) && ((m =? 133) || (m =? 160)))%N.

Definition spaceRune3 (a b c : ascii) : bool :=
  let k := N_of_ascii a in
  let m := N_of_ascii b in
  let n := N_of_ascii c in
  ((k =? 225) && (m =? 154) && (n =? 128)
   || (k =? 226) && (m =? 128)
      && ((128 <=? n) && (n <=? 138) || (n =? 168) || (n =? 169) || (n =? 175))
   || (k =? 226) && (m =? 129) && (n =? 159)
   || (k =? 227) && (m =? 128) && (n =? 128))%N.

(** The runes are taken off the front of [s]; with [backwards] the string
    is read from its end, and so are the bytes of a rune. *)
Fixpoint trimRunes (backwards : bool) (s : string) : string :=
  match s with
  | EmptyString => s
  | String a s1 =>
      if asciiSpace a then trimRunes backwards s1
      else
        match s1 with
        | EmptyString => s
        | String b s2 =>
            if (if backwards then spaceRune2 b a else spaceRune2 a b)
            then trimRunes backwards s2
            else
              match s2 with
              | EmptyString => s
              | String c s3 =>
                  if (if backwards then spaceRune3 c b a else spaceRune3 a b c)
                  then trimRunes backwards s3
                  else s
              end
        end
  end.

Definition reverse (s : string) : string :=
  string_of_list_ascii (rev (list_ascii_of_string s)).

Definition TrimSpace (s : string) : string :=
  reverse (trimRunes true (reverse (trimRunes false s))).

(** ** Data model (storage.go, lines 17-50) *)

Definition ContainerNamePattern : string := "amazin-object-storage-node-".
Definition MinioAccessKeyEnv : string := "MINIO_ACCESS_KEY".
Definition MinioSecretKeyEnv : string := "MINIO_SECRET_KEY".
Definition MinioApiPort : Z := 9000.

Record Object := mkObject {
  ID : string;
  ContentType : string;
  Content : list byte }.

Record Node := mkNode {
  nID : string;
  nName : string;
  nEndpoint : string;
  nAccessKey : string;
  nSecretKey : string }.

#[global] Instance Node_eq_dec : EqDecision Node.
Proof. solve_decision. Defined.

Definition maskSecret (secret : string) : string :=
  Repeat "X" (String.length secret).

(** [Node.String]: the member token [id#name]. *)
Definition Node_String (n : Node) : string :=
  nID n +:+ "#" +:+ nName n.

Definition Node_Debug (n : Node) : string :=
  nID n +:+ "#" +:+ nName n +:+ "#" +:+ nEndpoint n +:+ "#" +:+ nAccessKey n
  +:+ "#" +:+ maskSecret (nSecretKey n).

(** The member tokens of a list of nodes. *)
Definition tokens (nodes : list Node) : gset string :=
  list_to_set (Node_String <$> nodes).

(** ** The container runtime (external collaborator)

    What the Docker client hands to the package: the answer to
    [ContainerList] with the filter [status=running] (an error text or the
    listing) and, per container id, the answer to [ContainerInspect] (an
    error text or [Config.Env]).  [Networks] is a Go map; it is given as the
    list of its entries in the order in which the runtime iterates it, and a
    nil map is the empty list. *)

Record EndpointSettings := mkEndpointSettings { IPAddress : string }.

Record SummaryNetworkSettings := mkNetworkSettings {
  Networks : list (string * EndpointSettings) }.

Record Container := mkContainer {
  cID : string;
  cNames : list string;
  cNetworkSettings : option SummaryNetworkSettings }.

Record DockerClient := mkDockerClient {
  ContainerList : string + list Container;
  ContainerInspect : string -> string + list string }.

(** ** Node discovery (storage.go, lines 172-241) *)

(** Lines 192-194: the first name, or the zero value. *)
Definition firstName (container : Container) : string :=
  match cNames container with
  | name :: _ => name
  | [] => ""
  end.

(** Lines 203-211: the first non-empty address met while ranging over the
    networks. *)
Fixpoint firstAddress (networks : list (string * EndpointSettings)) : string :=
  match networks with
  | [] => ""
  | (_, n) :: rest =>
      if String.eqb (IPAddress n) "" then firstAddress rest else IPAddress n
  end.

Definition resolveAddress (container : Container) : string :=
  match cNetworkSettings container with
  | Some ns => firstAddress (Networks ns)
  | None => ""
  end.

(** Lines 224-230: [KEY=value] entries; a later entry overrides an earlier
    one, and only the text between the first and the second [=] is kept. *)
Definition parseEnv (envs : list string) : gmap string string :=
  foldl (fun containerEnv env =>
           match Split env "="%char with
           | k :: v :: _ => <[k := v]> containerEnv
           | _ => containerEnv
           end) ∅ envs.

(** The node built for a container that passed every check. *)
Definition nodeOf (container : Container) (env : list string) : Node :=
  let containerEnv := parseEnv env in
  {| nID := cID container;
     nName := firstName container;
     nEndpoint := resolveAddress container +:+ ":" +:+ itoa MinioApiPort;
     nAccessKey := default "" (containerEnv !! MinioAccessKeyEnv);
     nSecretKey := default "" (containerEnv !! MinioSecretKeyEnv) |}.

(** The body of the loop over the listing, with the slice built so far. *)
Fixpoint discoverLoop (inspect : string -> string + list string)
    (containers : list Container) (storageNodes : list Node) : outcome (list Node) :=
  match containers with
  | [] => Ok storageNodes
  | container :: rest =>
      if String.eqb (cID container) "" || negb (bool_decide (is_Some (cNetworkSettings container)))
      then discoverLoop inspect rest storageNodes
      else if negb (Contains (firstName container) ContainerNamePattern)
      then discoverLoop inspect rest storageNodes
      else if String.eqb (resolveAddress container) ""
      then Exit 1 (* log.Fatalf, line 213; the [continue] after it is never reached *)
      else match inspect (cID container) with
           | inl e => Err ("unable to inspect container " +:+ cID container +:+ ": " +:+ e)
           | inr env => discoverLoop inspect rest (storageNodes ++ [nodeOf container env])
           end
  end.

(** [s.client] is a pointer: [None] is the nil client. *)
Definition getAvailableStorageNodes (client : option DockerClient) : outcome (list Node) :=
  match client with
  | None => Panic nilDeref
  | Some cli =>
      match ContainerList cli with
      | inl e => Err ("unable to list containers: " +:+ e)
      | inr containers => discoverLoop (ContainerInspect cli) containers []
      end
  end.

(** The containers that pass the guards of lines 186 and 196: an id, network
    settings, and a first name that contains the pattern. *)
Definition candidate (container : Container) : bool :=
  negb (String.eqb (cID container) "")
  && bool_decide (is_Some (cNetworkSettings container))
  && Contains (firstName container) ContainerNamePattern.

(** Line 212: an address was found. *)
Definition addressed (container : Container) : bool :=
  negb (String.eqb (resolveAddress container) "").

(** Line 219: the inspection of the container succeeds. *)
Definition inspectable (inspect : string -> string + list string) (container : Container)
  : bool :=
  match inspect (cID container) with
  | inr _ => true
  | inl _ => false
  end.

(** The node of a container, with the environment its inspection returns. *)
Definition nodeFor (inspect : string -> string + list string) (container : Container) : Node :=
  nodeOf container (match inspect (cID container) with inr env => env | inl _ => [] end).

(** ** The S3 servers behind the Minio client (external collaborator)

    A server is identified by its endpoint.  It is [Down e] (every request
    to it fails with the error text [e] and nothing reaches it), [Up], with
    the credentials it accepts and its buckets, or [Unheard e]: the server
    receives the requests and carries them out, but its answers do not come
    back within the time-outs of the client (storage.go, lines 281-289), so
    that every request ends with the error text [e] on the side of the
    client, also a request that has changed the server.  A bucket maps an
    object name to the stored content type and body.  An endpoint absent
    from the world refuses the connection.  The error texts of a server
    that is up are those of the S3 protocol.

    The content type.  The client does not send an empty content type:
    [PutObjectOptions.Header] of minio-go sends [application/octet-stream]
    in its place.  A server keeps the content type it is sent.  On the way
    back [ToObjectInfo] of minio-go reports the header without the white
    space at its ends, and [application/octet-stream] when nothing is
    left. *)

Record stored := mkStored { sContentType : string; sBody : list byte }.

Inductive server : Type :=
| Down (e : string)
| Up (accessKey secretKey : string) (buckets : gmap string (gmap string stored))
| Unheard (e : string) (accessKey secretKey : string)
    (buckets : gmap string (gmap string stored)).

Record MinioClient := mkMinioClient {
  mcEndpoint : string;
  mcAccessKey : string;
  mcSecretKey : string }.

Definition NoSuchBucket : string := "The specified bucket does not exist".
Definition NoSuchKey : string := "The specified key does not exist.".
Definition AccessDenied : string := "Access Denied.".
Definition ConnectionRefused : string := "connect: connection refused".
Definition BucketAlreadyOwnedByYou : string :=
  "Your previous request to create the named bucket succeeded and you already own it.".

Definition DefaultContentType : string := "application/octet-stream".

(** The content type [PutObject] sends for the one it is given. *)
Definition sentContentType (contentType : string) : string :=
  if String.eqb contentType "" then DefaultContentType else contentType.

(** The content type [Stat] reports for the header of the answer. *)
Definition reportedContentType (header : string) : string :=
  let contentType := TrimSpace header in
  if String.eqb contentType "" then DefaultContentType else contentType.

(** A content type of printable ASCII bytes only that neither starts nor
    ends with a space. *)
Definition printable (a : ascii) : bool :=
  ((32 <=? N_of_ascii a) && (N_of_ascii a <=? 126))%N.

Definition visible (a : ascii) : bool :=
  ((33 <=? N_of_ascii a) && (N_of_ascii a <=? 126))%N.

Definition plainContentType (contentType : string) : bool :=
  let bytes := list_ascii_of_string contentType in
  forallb printable bytes
  && match bytes with a :: _ => visible a | [] => false end
  && match rev bytes with z :: _ => visible z | [] => false end.

(** The round trip of one request: the buckets of the server, or the text of
    the failure. *)
Definition connect (w : gmap string server) (c : MinioClient)
  : string + gmap string (gmap string stored) :=
  match w !! mcEndpoint c with
  | None => inl ConnectionRefused
  | Some (Down e) => inl e
  | Some (Up ak sk buckets) =>
      if String.eqb ak (mcAccessKey c) && String.eqb sk (mcSecretKey c)
      then inr buckets else inl AccessDenied
  | Some (Unheard e _ _ _) => inl e
  end.

(** The buckets of the server when it receives and accepts the requests of
    client [c], answered or not. *)
Definition received (w : gmap string server) (c : MinioClient)
  : option (gmap string (gmap string stored)) :=
  match w !! mcEndpoint c with
  | Some (Up ak sk buckets) | Some (Unheard _ ak sk buckets) =>
      if String.eqb ak (mcAccessKey c) && String.eqb sk (mcSecretKey c)
      then Some buckets else None
  | _ => None
  end.

Definition setBuckets (w : gmap string server) (c : MinioClient)
    (buckets : gmap string (gmap string stored)) : gmap string server :=
  match w !! mcEndpoint c with
  | Some (Up ak sk _) => <[mcEndpoint c := Up ak sk buckets]> w
  | Some (Unheard e ak sk _) => <[mcEndpoint c := Unheard e ak sk buckets]> w
  | _ => w
  end.

(** Whether a request of client [c] is answered: the failure, if any. *)
Definition reach (w : gmap string server) (c : MinioClient) : option string :=
  match connect w c with
  | inl e => Some e
  | inr _ => None
  end.

(** The client that [NewMinioStorage] builds for a node. *)
Definition clientOf (node : Node) : MinioClient :=
  mkMinioClient (nEndpoint node) (nAccessKey node) (nSecretKey node).

Section Router.

(** The hash function behind [xxhash.Sum64]; [hasher_Sum64] reduces it to
    64 bits.  Nothing else is assumed about it. *)
Variable xxhash : list byte -> Z.
(** The check of [minio.New] on the endpoint: the error text, if any. *)
Variable endpointError : string -> option string.
(** The checks the Minio client makes on a bucket name and on an object
    name before it sends a request: the error text, if any. *)
Variable bucketNameError : string -> option string.
Variable objectNameError : string -> option string.

(** *** The Minio client *)

Definition client_BucketExists (w : gmap string server) (c : MinioClient)
    (bucketName : string) : string + bool :=
  match bucketNameError bucketName with
  | Some e => inl e
  | None =>
      match connect w c with
      | inl e => inl e
      | inr buckets => inr (bool_decide (is_Some (buckets !! bucketName)))
      end
  end.

(** [MakeBucket]: the name is checked before the request is sent.  A
    server that receives the request creates the bucket when it is missing,
    whether its answer reaches the client or not. *)
Definition client_MakeBucket (w : gmap string server) (c : MinioClient)
    (bucketName : string) : option string * gmap string server :=
  match bucketNameError bucketName with
  | Some e => (Some e, w)
  | None =>
      match connect w c with
      | inl e =>
          match received w c with
          | None => (Some e, w)
          | Some buckets =>
              match buckets !! bucketName with
              | Some _ => (Some e, w)
              | None => (Some e, setBuckets w c (<[bucketName := ∅]> buckets))
              end
          end
      | inr buckets =>
          match buckets !! bucketName with
          | Some _ => (Some BucketAlreadyOwnedByYou, w)
          | None => (None, setBuckets w c (<[bucketName := ∅]> buckets))
          end
      end
  end.

(** [PutObject]: the two names are checked before the request is sent.  A
    server that receives the request and holds the bucket stores the object
    with the content type that the client sends, whether its answer reaches
    the client or not. *)
Definition client_PutObject (w : gmap string server) (c : MinioClient)
    (bucketName objectName : string) (body : list byte) (contentType : string)
  : option string * gmap string server :=
  match bucketNameError bucketName with
  | Some e => (Some e, w)
  | None =>
  match objectNameError objectName with
  | Some e => (Some e, w)
  | None =>
      let object := mkStored (sentContentType contentType) body in
      match connect w c with
      | inl e =>
          match received w c with
          | None => (Some e, w)
          | Some buckets =>
              match buckets !! bucketName with
              | None => (Some e, w)
              | Some objects =>
                  (Some e,
                   setBuckets w c (<[bucketName := <[objectName := object]> objects]> buckets))
              end
          end
      | inr buckets =>
          match buckets !! bucketName with
          | None => (Some NoSuchBucket, w)
          | Some objects =>
              (None,
               setBuckets w c (<[bucketName := <[objectName := object]> objects]> buckets))
          end
      end
  end
  end.

(** [GetObject] only checks its arguments and returns a handle; the request
    is sent by [Stat] and by the first read. *)
Record minioObject := mkMinioObject {
  oClient : MinioClient;
  oBucket : string;
  oName : string }.

Definition client_GetObject (c : MinioClient) (bucketName objectName : string)
  : string + minioObject :=
  match bucketNameError bucketName with
  | Some e => inl e
  | None =>
      match objectNameError objectName with
      | Some e => inl e
      | None => inr (mkMinioObject c bucketName objectName)
      end
  end.

Definition fetch (w : gmap string server) (o : minioObject) : string + stored :=
  match connect w (oClient o) with
  | inl e => inl e
  | inr buckets =>
      match buckets !! oBucket o with
      | None => inl NoSuchBucket
      | Some objects =>
          match objects !! oName o with
          | None => inl NoSuchKey
          | Some v => inr v
          end
      end
  end.

(** [mObj.Stat()]: the content type of the object. *)
Definition minioObject_Stat (w : gmap string server) (o : minioObject) : string + string :=
  match fetch w o with
  | inl e => inl e
  | inr v => inr (reportedContentType (sContentType v))
  end.

(** [io.ReadAll(mObj)]. *)
Definition minioObject_ReadAll (w : gmap string server) (o : minioObject)
  : string + list byte :=
  match fetch w o with
  | inl e => inl e
  | inr v => inr (sBody v)
  end.

(** *** The Minio adapter (second half of storage.go) *)

Definition MinioKeyNotExistErrString : string := "The specified key does not exist.".

Record MinioConfig := mkMinioConfig {
  cfgEndpoint : string;
  cfgAccessKey : string;
  cfgSecretKey : string;
  cfgBucketName : string }.

Record MinioStorage := mkMinioStorage {
  msClient : MinioClient;
  msEndpoint : string;
  msBucketName : string }.

Definition NewMinioStorage (cfg : MinioConfig) : outcome MinioStorage :=
  match endpointError (cfgEndpoint cfg) with
  | Some e => Err ("unable to create minio storage instance: " +:+ e)
  | None =>
      Ok {| msClient := mkMinioClient (cfgEndpoint cfg) (cfgAccessKey cfg) (cfgSecretKey cfg);
            msEndpoint := cfgEndpoint cfg;
            msBucketName := cfgBucketName cfg |}
  end.

Definition MinioStorage_Init (w : gmap string server) (s : MinioStorage)
  : outcome unit * gmap string server :=
  match client_BucketExists w (msClient s) (msBucketName s) with
  | inl e =>
      (Err ("error init bucket (" +:+ msEndpoint s +:+ "): unable to check bucket: " +:+ e), w)
  | inr true => (Ok tt, w)
  | inr false =>
      match client_MakeBucket w (msClient s) (msBucketName s) with
      | (Some e, w') =>
          (Err ("error init bucket (" +:+ msEndpoint s +:+ "): unable to create bucket: " +:+ e), w')
      | (None, w') => (Ok tt, w')
      end
  end.

Definition keyDoesNotExist (err : string) : bool :=
  Contains err MinioKeyNotExistErrString.

Definition handleKeyDoesNotExistError (s : MinioStorage) (err pfx id : string)
  : outcome (option Object) :=
  if keyDoesNotExist err then Ok None
  else Err (pfx +:+ " (" +:+ msEndpoint s +:+ " | " +:+ id +:+ "): " +:+ err).

Definition MinioStorage_Get (w : gmap string server) (s : MinioStorage) (id : string)
  : outcome (option Object) :=
  match client_GetObject (msClient s) (msBucketName s) id with
  | inl err => handleKeyDoesNotExistError s err "error get object" id
  | inr mObj =>
      match minioObject_Stat w mObj with
      | inl err =>
          handleKeyDoesNotExistError s err "error get object: unable to read stat" id
      | inr infoContentType =>
          match minioObject_ReadAll w mObj with
          | inl err =>
              Err ("error get object (" +:+ msEndpoint s +:+ " | " +:+ id
                   +:+ "): unable to read body: " +:+ err)
          | inr body =>
              Ok (Some {| ID := id; ContentType := infoContentType; Content := body |})
          end
      end
  end.

(** [object] is a pointer: [None] is nil, and [object.ID] on it panics. *)
Definition MinioStorage_Put (w : gmap string server) (s : MinioStorage)
    (object : option Object) : outcome unit * gmap string server :=
  match object with
  | None => (Panic nilDeref, w)
  | Some o =>
      match client_PutObject w (msClient s) (msBucketName s) (ID o) (Content o) (ContentType o) with
      | (Some err, w') =>
          (Err ("error put object (" +:+ msEndpoint s +:+ " | " +:+ ID o +:+ "): " +:+ err), w')
      | (None, w') => (Ok tt, w')
      end
  end.

(** *** The hash ring (module github.com/buraksezer/consistent, imported)

    The router uses [consistent.New], [Add] and [LocateKey].  The module
    keeps, per ring: the sorted hashes of the members' replicas, the replica
    owning each hash, the members by token, and the owner of every
    partition.  [Add] places [ReplicationFactor] replicas of the member and
    redistributes all partitions, walking the ring clockwise from the hash of
    the partition number to the first member whose load is below the average
    load times [Load]; it panics when no member has room.  [LocateKey]
    returns the owner of partition [hash(key) mod partitionCount], or nil
    when that partition has no owner.  The only member type is [Node]. *)

Definition hasher_Sum64 (data : list byte) : Z := xxhash data mod 2 ^ 64.

Record Config := mkConfig {
  PartitionCount : Z;
  ReplicationFactor : Z;
  Load : Q }.

Definition DefaultPartitionCount : Z := 271.
Definition DefaultReplicationFactor : Z := 20.
Definition DefaultLoad : Q := (5 # 4)%Q.

Record Consistent := mkConsistent {
  config : Config;
  sortedSet : list Z;
  partitionCount : Z;
  loads : gmap string Z;
  members : gmap string Node;
  partitions : gmap Z Node;
  ring : gmap Z Node }.

Definition byte_of_Z (z : Z) : byte :=
  byte_of_ascii (ascii_of_N (Z.to_N (z mod 256))).

(** [binary.LittleEndian.PutUint64]. *)
Definition PutUint64 (v : Z) : list byte :=
  map (fun i => byte_of_Z (Z.shiftr v (8 * Z.of_nat i))) (seq 0 8).

(** [sort.Search] on the sorted hashes: the first index whose hash is at
    least [key], the length when there is none. *)
Fixpoint Search (hashes : list Z) (key : Z) : nat :=
  match hashes with
  | [] => O
  | h :: rest => if key <=? h then O else S (Search rest key)
  end.

Definition averageLoad (c : Consistent) : Z :=
  if Nat.eqb (size (members c)) 0 then 0
  else Qceiling (inject_Z (partitionCount c / Z.of_nat (size (members c))) * Load (config c)).

(** The loop of [distributeWithLoad].  It looks at [len(sortedSet) - 1]
    replicas at most ([remaining] counts them down) and panics after that. *)
Fixpoint distributeWithLoad_loop (c : Consistent) (avgLoad : Z) (partID : Z)
    (remaining idx : nat) (parts : gmap Z Node) (lds : gmap string Z)
  : outcome (gmap Z Node * gmap string Z) :=
  match remaining with
  | O => Panic "not enough room to distribute partitions"
  | S remaining' =>
      match sortedSet c !! idx with
      | None => Panic "runtime error: index out of range"
      | Some i =>
          match ring c !! i with
          | None => Panic nilDeref
          | Some member =>
              let load := default 0 (lds !! Node_String member) in
              if load + 1 <=? avgLoad
              then Ok (<[partID := member]> parts, <[Node_String member := load + 1]> lds)
              else
                let idx' := S idx in
                let idx' := if Nat.leb (length (sortedSet c)) idx' then O else idx' in
                distributeWithLoad_loop c avgLoad partID remaining' idx' parts lds
          end
      end
  end.

Definition distributeWithLoad (c : Consistent) (partID : Z) (idx : nat)
    (parts : gmap Z Node) (lds : gmap string Z) : outcome (gmap Z Node * gmap string Z) :=
  distributeWithLoad_loop c (averageLoad c) partID (length (sortedSet c) - 1)%nat idx parts lds.

Definition distributePartitions (c : Consistent) : outcome Consistent :=
  let! (parts, lds) :=
    foldl (fun acc partID =>
             let! (parts, lds) := acc in
             let key := hasher_Sum64 (PutUint64 (Z.of_nat partID)) in
             let idx := Search (sortedSet c) key in
             let idx := if Nat.leb (length (sortedSet c)) idx then O else idx in
             distributeWithLoad c (Z.of_nat partID) idx parts lds)
          (Ok (∅, ∅)) (seq 0 (Z.to_nat (partitionCount c))) in
  Ok {| config := config c; sortedSet := sortedSet c; partitionCount := partitionCount c;
        loads := lds; members := members c; partitions := parts; ring := ring c |}.

(** The unexported [add]: the replicas of [member], then the sort. *)
Definition consistent_add (c : Consistent) (member : Node) : Consistent :=
  let '(rg, hashes) :=
    foldl (fun '(rg, hashes) i =>
             let key := list_byte_of_string (Node_String member +:+ itoa (Z.of_nat i)) in
             let h := hasher_Sum64 key in
             (<[h := member]> rg, hashes ++ [h]))
          (ring c, sortedSet c) (seq 0 (Z.to_nat (ReplicationFactor (config c)))) in
  {| config := config c; sortedSet := merge_sort Z.le hashes;
     partitionCount := partitionCount c; loads := loads c;
     members := <[Node_String member := member]> (members c);
     partitions := partitions c; ring := rg |}.

(** [consistent.New]; [ms] is a slice, [None] the nil slice. *)
Definition consistent_New (ms : option (list Node)) (cfg : Config) : outcome Consistent :=
  let cfg := if PartitionCount cfg =? 0
             then mkConfig DefaultPartitionCount (ReplicationFactor cfg) (Load cfg) else cfg in
  let cfg := if ReplicationFactor cfg =? 0
             then mkConfig (PartitionCount cfg) DefaultReplicationFactor (Load cfg) else cfg in
  let cfg := if Qeq_bool (Load cfg) 0
             then mkConfig (PartitionCount cfg) (ReplicationFactor cfg) DefaultLoad else cfg in
  let c := {| config := cfg; sortedSet := []; partitionCount := PartitionCount cfg;
              loads := ∅; members := ∅; partitions := ∅; ring := ∅ |} in
  match ms with
  | None => Ok c
  | Some l => distributePartitions (foldl consistent_add c l)
  end.

Definition consistent_Add (c : Consistent) (member : Node) : outcome Consistent :=
  if bool_decide (is_Some (members c !! Node_String member)) then Ok c
  else distributePartitions (consistent_add c member).

(** [LocateKey]: the owner of the key's partition; [Ok None] is the nil
    [Member]. *)
Definition FindPartitionID (c : Consistent) (key : list byte) : outcome Z :=
  if partitionCount c =? 0 then Panic "runtime error: integer divide by zero"
  else Ok (hasher_Sum64 key mod partitionCount c).

Definition LocateKey (c : Consistent) (key : list byte) : outcome (option Node) :=
  let! partID := FindPartitionID c key in
  Ok (partitions c !! partID).

(** Every replica on the ring and every partition owner is a member, and
    the partition count is not zero. *)
Definition ring_wf (c : Consistent) : Prop :=
  (forall h m, ring c !! h = Some m -> is_Some (members c !! Node_String m))
  /\ (forall p m, partitions c !! p = Some m -> is_Some (members c !! Node_String m))
  /\ partitionCount c <> 0.

(** *** The router (storage.go, lines 58-170)

    [circle] is a pointer ([None] is nil).  The values of
    [availableStorages] are [Storage] interface values; [initStorageNode]
    only ever stores Minio adapters there. *)

Record DistributedStorage := mkDistributedStorage {
  client : option DockerClient;
  bucketName : string;
  circle : option Consistent;
  availableStorages : gmap string MinioStorage }.

Definition NewDistributedStorage (cli : option DockerClient) (bucket : string)
  : DistributedStorage :=
  {| client := cli; bucketName := bucket; circle := None; availableStorages := ∅ |}.

Definition setStorages (s : DistributedStorage) (m : gmap string MinioStorage)
  : DistributedStorage :=
  {| client := client s; bucketName := bucketName s; circle := circle s;
     availableStorages := m |}.

Definition setCircle (s : DistributedStorage) (c : Consistent) : DistributedStorage :=
  {| client := client s; bucketName := bucketName s; circle := Some c;
     availableStorages := availableStorages s |}.

Definition initStorageNode (s : DistributedStorage) (w : gmap string server) (node : Node)
  : outcome MinioStorage * gmap string server :=
  match NewMinioStorage {| cfgEndpoint := nEndpoint node; cfgAccessKey := nAccessKey node;
                           cfgSecretKey := nSecretKey node; cfgBucketName := bucketName s |} with
  | Ok storage =>
      match MinioStorage_Init w storage with
      | (Ok _, w') => (Ok storage, w')
      | (Err err, w') =>
          (Err ("initialize storage for node " +:+ Node_Debug node +:+ ": " +:+ err), w')
      | (Panic msg, w') => (Panic msg, w')
      | (Exit code, w') => (Exit code, w')
      end
  | Err err => (Err ("create Minio storage for node " +:+ Node_Debug node +:+ ": " +:+ err), w)
  | Panic msg => (Panic msg, w)
  | Exit code => (Exit code, w)
  end.

(** The loop of [initStorages]: the registry is written node by node, and
    what was written stays when a later node fails. *)
Fixpoint initStorages_loop (s : DistributedStorage) (w : gmap string server)
    (nodes : list Node) : outcome unit * DistributedStorage * gmap string server :=
  match nodes with
  | [] => (Ok tt, s, w)
  | node :: rest =>
      match initStorageNode s w node with
      | (Ok storage, w') =>
          initStorages_loop
            (setStorages s (<[Node_String node := storage]> (availableStorages s))) w' rest
      | (Err err, w') => (Err err, s, w')
      | (Panic msg, w') => (Panic msg, s, w')
      | (Exit code, w') => (Exit code, s, w')
      end
  end.

Definition initStorages (s : DistributedStorage) (w : gmap string server)
    (nodes : list Node) : outcome unit * DistributedStorage * gmap string server :=
  initStorages_loop (setStorages s ∅) w nodes.

(** The loop of [initHashCircle]. *)
Fixpoint addAll (c : Consistent) (nodes : list Node) : outcome Consistent :=
  match nodes with
  | [] => Ok c
  | node :: rest => let! c' := consistent_Add c node in addAll c' rest
  end.

Definition initHashCircle (nodes : list Node) : outcome Consistent :=
  let! c := consistent_New None
              {| PartitionCount := Z.of_nat (length nodes); ReplicationFactor := 0;
                 Load := (5 # 4)%Q |} in
  addAll c nodes.

Definition DistributedStorage_Init (s : DistributedStorage) (w : gmap string server)
  : outcome unit * DistributedStorage * gmap string server :=
  match getAvailableStorageNodes (client s) with
  | Err err => (Err ("retrieve storage nodes: " +:+ err), s, w)
  | Panic msg => (Panic msg, s, w)
  | Exit code => (Exit code, s, w)
  | Ok nodes =>
      match initStorages s w nodes with
      | (Ok _, s', w') =>
          match initHashCircle nodes with
          | Ok c => (Ok tt, setCircle s' c, w')
          | Err err => (Err err, s', w')
          | Panic msg => (Panic msg, s', w')
          | Exit code => (Exit code, s', w')
          end
      | r => r
      end
  end.

(** [s.circle.LocateKey(key).String()]: the token of the located member.
    A nil circle and a nil [Member] both end in a nil dereference. *)
Definition locate (s : DistributedStorage) (id : string) : outcome string :=
  match circle s with
  | None => Panic nilDeref
  | Some c =>
      let! member := LocateKey c (list_byte_of_string id) in
      match member with
      | None => Panic nilDeref
      | Some node => Ok (Node_String node)
      end
  end.

Definition DistributedStorage_Put (s : DistributedStorage) (w : gmap string server)
    (object : option Object) : outcome unit * gmap string server :=
  match object with
  | None => (Err "object is empty", w)
  | Some o =>
      if String.eqb (ID o) "" then (Err "object is empty", w)
      else
        match locate s (ID o) with
        | Ok key =>
            match availableStorages s !! key with
            | None =>
                (Err ("failed to push data: storage node not available (" +:+ key +:+ ")"), w)
            | Some storage =>
                match MinioStorage_Put w storage object with
                | (Err err, w') =>
                    (Err ("failed to put data using node (" +:+ key +:+ "): " +:+ err), w')
                | r => r
                end
            end
        | Err err => (Err err, w)
        | Panic msg => (Panic msg, w)
        | Exit code => (Exit code, w)
        end
  end.

Definition DistributedStorage_Get (s : DistributedStorage) (w : gmap string server)
    (id : string) : outcome (option Object) :=
  match locate s id with
  | Ok key =>
      match availableStorages s !! key with
      | None => Err ("failed to get data: storage node not available (" +:+ key +:+ ")")
      | Some storage =>
          match MinioStorage_Get w storage id with
          | Err err => Err ("failed to get data using node (" +:+ key +:+ "): " +:+ err)
          | r => r
          end
      end
  | Err err => Err err
  | Panic msg => Panic msg
  | Exit code => Exit code
  end.

(** The error of [initStorageNode] for [node]: one of its two wrappers,
    then the id, the name, the endpoint and the access key of the node and
    one [X] per byte of its secret key, separated by [#], then the cause. *)
Definition identifies (err : string) (node : Node) : Prop :=
  exists cause,
    let description :=
      nID node +:+ "#" +:+ nName node +:+ "#" +:+ nEndpoint node +:+ "#"
      +:+ nAccessKey node +:+ "#" +:+ Repeat "X" (String.length (nSecretKey node))
      +:+ ": " +:+ cause in
    err = "create Minio storage for node " +:+ description
    \/ err = "initialize storage for node " +:+ description.

(** The adapter of [node] cannot be constructed or fails its [Init]. *)
Definition adapterFails (s : DistributedStorage) (w : gmap string server) (node : Node)
  : bool :=
  match (initStorageNode s w node).1 with
  | Err _ => true
  | _ => false
  end.

(** The two texts of the defensive branch of [Put] and of [Get]. *)
Definition putNodeUnavailable (key : string) : string :=
  "failed to push data: storage node not available (" +:+ key +:+ ")".
Definition getNodeUnavailable (key : string) : string :=
  "failed to get data: storage node not available (" +:+ key +:+ ")".

(** *** Start-up (cmd/main.go, lines 18-37)

    [main] up to the start of the gateway server: the bucket name from the
    environment, the router, [storage.Init(ctx)] as a statement (its result
    is not looked at), then the server is built over the router and started
    on [":3000"].  [started] records what the gateway serves and what [Init]
    had returned.  A panic or [log.Fatalf] inside [Init] ends the process
    before the server starts. *)

Definition EnvBucketName : string := "BUCKET_NAME".

Definition getEnvWithFallback (env : gmap string string) (key fallback : string) : string :=
  match env !! key with
  | None => fallback
  | Some value => value
  end.

Record started := mkStarted {
  listenAddr : string;
  served : DistributedStorage;
  initResult : option string }.

Definition main (env : gmap string string) (cli : option DockerClient)
    (w : gmap string server) : outcome started * gmap string server :=
  let bucket := getEnvWithFallback env EnvBucketName "default" in
  let storage := NewDistributedStorage cli bucket in
  match DistributedStorage_Init storage w with
  | (Ok _, storage', w') => (Ok (mkStarted ":3000" storage' None), w')
  | (Err err, storage', w') => (Ok (mkStarted ":3000" storage' (Some err)), w')
  | (Panic msg, _, w') => (Panic msg, w')
  | (Exit code, _, w') => (Exit code, w')
  end.

End Router.

(** ** A concrete deployment, used to run the model

    Three storage containers and one unrelated container; every server is
    up and holds no bucket yet.  The hash is FNV-1 on 64 bits. *)

Module Fixture.

Definition fnv1 (data : list byte) : Z :=
  fold_left (fun h b => (h * 1099511628211 + Z.of_N (Byte.to_N b)) mod 2 ^ 64)
            data 14695981039346656037.

Definition anyEndpoint (endpoint : string) : option string := None.
Definition anyBucket (bucketName : string) : option string := None.

(** The Minio client refuses an empty object name. *)
Definition nonEmptyName (objectName : string) : option string :=
  if String.eqb objectName "" then Some "Object name cannot be empty" else None.

Definition storageContainer (id name addr : string) : Container :=
  {| cID := id; cNames := [name];
     cNetworkSettings := Some (mkNetworkSettings [("bridge", mkEndpointSettings addr)]) |}.

Definition containers : list Container :=
  [ storageContainer "c1" "/amazin-object-storage-node-1" "10.0.0.1";
    storageContainer "c0" "/gateway-container" "10.0.0.9";
    storageContainer "c2" "/amazin-object-storage-node-2" "10.0.0.2";
    storageContainer "c3" "/amazin-object-storage-node-3" "10.0.0.3" ].

Definition nodeEnv : list string :=
  ["PATH=/usr/bin"; "MINIO_ACCESS_KEY=ring"; "MINIO_SECRET_KEY=treepotato"].

Definition docker : DockerClient :=
  {| ContainerList := inr containers; ContainerInspect := fun _ => inr nodeEnv |}.

(** The same listing when no container can be inspected. *)
Definition dockerInspectFails : DockerClient :=
  {| ContainerList := inr containers;
     ContainerInspect := fun id => inl ("No such container: " +:+ id) |}.

(** A listing whose only storage container has no address. *)
Definition dockerNoAddress : DockerClient :=
  {| ContainerList :=
       inr [ {| cID := "c1"; cNames := ["/amazin-object-storage-node-1"];
                cNetworkSettings := Some (mkNetworkSettings []) |} ];
     ContainerInspect := fun _ => inr nodeEnv |}.

(** The runtime cannot be reached. *)
Definition dockerDown : DockerClient :=
  {| ContainerList := inl "Cannot connect to the Docker daemon";
     ContainerInspect := fun _ => inl "Cannot connect to the Docker daemon" |}.

(** No container is running. *)
Definition dockerEmpty : DockerClient :=
  {| ContainerList := inr []; ContainerInspect := fun _ => inr [] |}.

Definition freshServer : server := Up "ring" "treepotato" ∅.

Definition world : gmap string server :=
  <["10.0.0.1:9000" := freshServer]>
    (<["10.0.0.2:9000" := freshServer]> (<["10.0.0.3:9000" := freshServer]> ∅)).

(** The second server is down. *)
Definition worldOneDown : gmap string server :=
  <["10.0.0.2:9000" := Down "dial tcp 10.0.0.2:9000: i/o timeout"]> world.

Definition Init := DistributedStorage_Init fnv1 anyEndpoint anyBucket.
Definition Put := DistributedStorage_Put fnv1 anyBucket nonEmptyName.
Definition Get := DistributedStorage_Get fnv1 anyBucket nonEmptyName.

Definition router0 : DistributedStorage := NewDistributedStorage (Some docker) "default".

(** The router and the servers after [Init]. *)
Definition router1 : DistributedStorage := (Init router0 world).1.2.
Definition world1 : gmap string server := (Init router0 world).2.

(** The router when no container is running. *)
Definition routerEmpty : DistributedStorage :=
  NewDistributedStorage (Some dockerEmpty) "default".

(** The adapter of the first node. *)
Definition adapter1 : MinioStorage :=
  {| msClient := mkMinioClient "10.0.0.1:9000" "ring" "treepotato";
     msEndpoint := "10.0.0.1:9000"; msBucketName := "default" |}.

(** The first server fails every request, with a text that quotes the
    phrase of a missing key. *)
Definition worldProxyError : gmap string server :=
  <["10.0.0.1:9000" := Down "502 Bad Gateway: The specified key does not exist."]> world.

Definition hello : Object :=
  {| ID := "object-1"; ContentType := "text/plain";
     Content := list_byte_of_string "Hello, Minio!" |}.

(** The same object without a content type, and with a space in front of
    it. *)
Definition untyped : Object :=
  {| ID := "object-1"; ContentType := ""; Content := list_byte_of_string "Hello, Minio!" |}.
Definition padded : Object :=
  {| ID := "object-1"; ContentType := " text/plain";
     Content := list_byte_of_string "Hello, Minio!" |}.

(** A server that carries out the requests but whose answers are lost. *)
Definition worldUnheard : gmap string server :=
  <["10.0.0.1:9000" := Unheard "context deadline exceeded" "ring" "treepotato" {["default" := ∅]}]>
    (<["10.0.0.2:9000" := Unheard "context deadline exceeded" "ring" "treepotato" {["default" := ∅]}]>
    (<["10.0.0.3:9000" := Unheard "context deadline exceeded" "ring" "treepotato" {["default" := ∅]}]> ∅)).

End Fixture.

(** ** The gateway (internal/gateway)

    The handlers work on the store contract ([Storage], storage.go lines
    38-42): an implementation is given by its three methods over the state
    [St] it works on.  For the router that state is the router itself and
    the servers behind it. *)

Record Storage (St : Type) := mkStorage {
  storage_Init : St -> outcome unit * St;
  storage_Put : St -> option Object -> outcome unit * St;
  storage_Get : St -> string -> outcome (option Object) }.
Arguments storage_Init {St} _ _.
Arguments storage_Put {St} _ _ _.
Arguments storage_Get {St} _ _ _.

Section Implementations.

Variable xxhash : list byte -> Z.
Variable endpointError : string -> option string.
Variable bucketNameError : string -> option string.
Variable objectNameError : string -> option string.

(** [*DistributedStorage] as a [Storage]. *)
Definition routerStorage : Storage (DistributedStorage * gmap string server) :=
  {| storage_Init := fun '(s, w) =>
       let '(r, s', w') := DistributedStorage_Init xxhash endpointError bucketNameError s w in
       (r, (s', w'));
     storage_Put := fun '(s, w) object =>
       let '(r, w') := DistributedStorage_Put xxhash bucketNameError objectNameError s w object in
       (r, (s, w'));
     storage_Get := fun '(s, w) id =>
       DistributedStorage_Get xxhash bucketNameError objectNameError s w id |}.

(** [*MinioStorage] as a [Storage]. *)
Definition minioStorage : Storage (MinioStorage * gmap string server) :=
  {| storage_Init := fun '(s, w) =>
       let '(r, w') := MinioStorage_Init bucketNameError w s in (r, (s, w'));
     storage_Put := fun '(s, w) object =>
       let '(r, w') := MinioStorage_Put bucketNameError objectNameError w s object in
       (r, (s, w'));
     storage_Get := fun '(s, w) id =>
       MinioStorage_Get bucketNameError objectNameError w s id |}.

End Implementations.

(** The test double of the gateway tests: a map of objects and an error to
    return.  [mockObjects] is a Go map: [None] is the nil map, which can be
    read but not written. *)
Record MockStorage := mkMockStorage {
  mockObjects : option (gmap string Object);
  mockErr : option string }.

Definition MockStorage_Get (ms : MockStorage) (id : string) : outcome (option Object) :=
  match mockErr ms with
  | Some e => Err e
  | None =>
      Ok (match mockObjects ms with
          | Some objects => objects !! id
          | None => None
          end)
  end.

Definition MockStorage_Put (ms : MockStorage) (object : option Object)
  : outcome unit * MockStorage :=
  match mockErr ms with
  | Some e => (Err e, ms)
  | None =>
      match object with
      | None => (Panic nilDeref, ms)
      | Some o =>
          match mockObjects ms with
          | None => (Panic "assignment to entry in nil map", ms)
          | Some objects =>
              (Ok tt, {| mockObjects := Some (<[ID o := o]> objects); mockErr := None |})
          end
      end
  end.

Definition mockStorage : Storage MockStorage :=
  {| storage_Init := fun ms => (Ok tt, ms);
     storage_Put := MockStorage_Put;
     storage_Get := MockStorage_Get |}.

(** What a handler reads from the request: the path parameter [id], the
    header [Content-Type] (empty when absent) and the result of reading the
    body. *)
Record Request := mkRequest {
  paramId : string;
  headerContentType : string;
  requestBody : string + list byte }.

(** What a handler writes: [c.JSON(code, Response{Message})] or
    [c.Blob(code, contentType, content)]. *)
Inductive HttpResponse : Type :=
| JSON (code : Z) (message : string)
| Blob (code : Z) (contentType : string) (content : list byte).

Definition StatusOK : Z := 200.
Definition StatusBadRequest : Z := 400.
Definition StatusNotFound : Z := 404.
Definition StatusInternalServerError : Z := 500.

Definition isAlphanumeric (c : ascii) : bool :=
  let n := N_of_ascii c in
  ((48 <=? n) && (n <=? 57) || (65 <=? n) && (n <=? 90) || (97 <=? n) && (n <=? 122))%N.

(** [alphanumericRegex.MatchString] for the pattern [^[a-zA-Z0-9]+$]: one
    or more characters, all of them letters or digits. *)
Definition alphanumericRegex_MatchString (s : string) : bool :=
  negb (String.eqb s "") && forallb isAlphanumeric (list_ascii_of_string s).

Definition validateObjectID (id : string) : bool :=
  if Nat.eqb (String.length id) 0 || Nat.ltb 32 (String.length id) then false
  else alphanumericRegex_MatchString id.

Definition invalidObjectID : string :=
  "Invalid objectID. Must be alfa-numeric string between 1 and 32 characters.".

(** A panic of the store leaves the handler (the server recovers it); the
    error that [c.JSON] and [c.Blob] may return is not modelled. *)
Definition getObject {St : Type} (s : Storage St) (st : St) (c : Request)
  : outcome HttpResponse :=
  let objectID := paramId c in
  if negb (validateObjectID objectID) then Ok (JSON StatusBadRequest invalidObjectID)
  else
    match storage_Get s st objectID with
    | Err _ => Ok (JSON StatusInternalServerError ("Error retrieving object: " +:+ objectID))
    | Ok None => Ok (JSON StatusNotFound ("Object doesn't exist: " +:+ objectID))
    | Ok (Some object) => Ok (Blob StatusOK (ContentType object) (Content object))
    | Panic msg => Panic msg
    | Exit code => Exit code
    end.

Definition putObject {St : Type} (s : Storage St) (st : St) (c : Request)
  : outcome HttpResponse * St :=
  let contentType := headerContentType c in
  let objectID := paramId c in
  if negb (validateObjectID objectID) then (Ok (JSON StatusBadRequest invalidObjectID), st)
  else
    match requestBody c with
    | inl _ => (Ok (JSON StatusBadRequest "Cannot read request body"), st)
    | inr body =>
        let object := {| ID := objectID; ContentType := contentType; Content := body |} in
        match storage_Put s st (Some object) with
        | (Err _, st') =>
            (Ok (JSON StatusInternalServerError ("Cannot store object: " +:+ objectID)), st')
        | (Ok _, st') =>
            (Ok (JSON StatusOK ("Object was successfully stored with ID: " +:+ objectID)), st')
        | (Panic msg, st') => (Panic msg, st')
        | (Exit code, st') => (Exit code, st')
        end
    end.

(** ** Predicates used to state properties *)

(** The byte [c] does not occur in [s]. *)
Definition lacks (c : ascii) (s : string) : bool :=
  forallb (fun x => negb (Ascii.eqb x c)) (list_ascii_of_string s).

(** The adapter that [initStorageNode] builds for [node] on a router with
    bucket name [bucket]. *)
Definition adapterOf (bucket : string) (node : Node) : MinioStorage :=
  {| msClient := clientOf node; msEndpoint := nEndpoint node; msBucketName := bucket |}.

(** The server of the adapter answers it and holds its bucket. *)
Definition bucketReady (w : gmap string server) (st : MinioStorage) : Prop :=
  exists buckets,
    connect w (msClient st) = inr buckets /\ is_Some (buckets !! msBucketName st).

(** Every partition of the ring has an owner. *)
Definition allOwned (c : Consistent) : Prop :=
  forall p, 0 <= p < partitionCount c -> is_Some (partitions c !! p).

Section Readiness.

Variable bucketNameError : string -> option string.

(** The state in which the router serves: a ring whose partitions all have
    an owner, a registry with exactly the member tokens as keys, and behind
    every registered adapter a server that answers and holds the bucket. *)
Definition routerReady (s : DistributedStorage) (w : gmap string server) : Prop :=
  exists c,
    circle s = Some c /\ ring_wf c /\ allOwned c /\ 0 < partitionCount c
    /\ dom (members c) = dom (availableStorages s)
    /\ forall key st, availableStorages s !! key = Some st ->
         bucketNameError (msBucketName st) = None /\ bucketReady w st.

End Readiness.

(** ** Requests and test doubles, used to run the handlers *)

Module Scenario.

(** The stores of the table of [TestGetObject] and [TestPutObject]. *)
Definition noStore : MockStorage := {| mockObjects := None; mockErr := None |}.
Definition failingStore : MockStorage := {| mockObjects := None; mockErr := Some "test error" |}.
Definition emptyStore : MockStorage := {| mockObjects := Some ∅; mockErr := None |}.
Definition oneObject : MockStorage :=
  {| mockObjects :=
       Some {[ "validID" := {| ID := ""; ContentType := "text/plain";
                               Content := list_byte_of_string "test content" |} ]};
     mockErr := None |}.

Definition get (id : string) : Request :=
  {| paramId := id; headerContentType := ""; requestBody := inr [] |}.
Definition put (id : string) (body : string + list byte) : Request :=
  {| paramId := id; headerContentType := "text/plain"; requestBody := body |}.
Definition testContent : list byte := list_byte_of_string "test content".

(** The router of [Fixture] behind the gateway. *)
Definition gateway : Storage (DistributedStorage * gmap string server) :=
  routerStorage Fixture.fnv1 Fixture.anyEndpoint Fixture.anyBucket Fixture.nonEmptyName.

End Scenario.

(** * Properties *)

(** ** Strings *)

Lemma append_String (c : ascii) (s t : string) : String c s +:+ t = String c (s +:+ t).
Proof. reflexivity. Qed.

Lemma append_empty (t : string) : "" +:+ t = t.
Proof. reflexivity. Qed.

(** Pushes the characters of a literal prefix out of an append. *)
Ltac push_literal := rewrite ?append_String, ?append_empty.

Lemma append_assoc (a b c : string) : (a +:+ b) +:+ c = a +:+ (b +:+ c).
Proof. induction a as [| x a IH]; push_literal; [reflexivity | now rewrite IH]. Qed.

(** The text of [Node.Debug] in front of a text [t], field by field. *)
Lemma Node_Debug_append (n : Node) (t : string) :
  Node_Debug n +:+ t
  = nID n +:+ "#" +:+ nName n +:+ "#" +:+ nEndpoint n +:+ "#" +:+ nAccessKey n +:+ "#"
    +:+ Repeat "X" (String.length (nSecretKey n)) +:+ t.
Proof. unfold Node_Debug, maskSecret. now rewrite !append_assoc. Qed.

(** *** The content type on its way to the server and back *)

Lemma reverse_involutive (s : string) : reverse (reverse s) = s.
Proof.
  unfold reverse.
  now rewrite list_ascii_of_string_of_list_ascii, rev_involutive,
    string_of_list_ascii_of_string.
Qed.

(** A visible byte starts no white space, read from either end. *)
Lemma visible_no_space (backwards : bool) (a : ascii) (s : string) :
  visible a = true -> trimRunes backwards (String a s) = String a s.
Proof.
  unfold visible. intros Hvisible.
  assert (Hspace : asciiSpace a = false) by (unfold asciiSpace; cbv zeta; lia).
  assert (H2 : forall b, spaceRune2 a b = false)
    by (intros b; unfold spaceRune2; cbv zeta; lia).
  assert (H2' : forall b, spaceRune2 b a = false)
    by (intros b; unfold spaceRune2; cbv zeta; lia).
  assert (H3 : forall b c, spaceRune3 a b c = false)
    by (intros b c; unfold spaceRune3; cbv zeta; lia).
  assert (H3' : forall b c, spaceRune3 c b a = false)
    by (intros b c; unfold spaceRune3; cbv zeta; lia).
  cbn [trimRunes]. rewrite Hspace.
  destruct s as [| b [| c s]]; [reflexivity | |].
  - destruct backwards; now rewrite ?H2, ?H2'.
  - destruct backwards; now rewrite ?H2, ?H2', ?H3, ?H3'.
Qed.

(** A plain content type is not empty and has no white space at its ends. *)
Lemma plainContentType_kept (contentType : string) :
  plainContentType contentType = true ->
  contentType <> "" /\ TrimSpace contentType = contentType.
Proof.
  unfold plainContentType. cbv zeta.
  intros [[_ Hfirst]%andb_true_iff Hlast]%andb_true_iff.
  destruct contentType as [| a s]; [discriminate |]. split; [discriminate |].
  cbn [list_ascii_of_string] in Hfirst.
  unfold TrimSpace. rewrite (visible_no_space false a s Hfirst).
  unfold reverse at 2.
  destruct (rev (list_ascii_of_string (String a s))) as [| z l] eqn:Hrev; [discriminate |].
  cbn [string_of_list_ascii]. rewrite (visible_no_space true z _ Hlast).
  change (String z (string_of_list_ascii l)) with (string_of_list_ascii (z :: l)).
  rewrite <- Hrev. apply reverse_involutive.
Qed.

(** Such a content type comes back as it was sent. *)
Lemma contentType_kept (contentType : string) :
  contentType <> "" -> TrimSpace contentType = contentType ->
  reportedContentType (sentContentType contentType) = contentType.
Proof.
  intros Hne Htrim. unfold sentContentType, reportedContentType.
  apply String.eqb_neq in Hne. rewrite Hne. cbv zeta. now rewrite Htrim, Hne.
Qed.

(** The empty content type comes back as the default. *)
Lemma contentType_empty : reportedContentType (sentContentType "") = DefaultContentType.
Proof. reflexivity. Qed.

Example TrimSpace_media_type : TrimSpace "text/plain; charset=utf-8" = "text/plain; charset=utf-8".
Proof. reflexivity. Qed.

Example TrimSpace_ascii :
  TrimSpace (String "009" (String "010" " text/plain " +:+ String "013" "")) = "text/plain".
Proof. reflexivity. Qed.

(** U+00A0 in front and U+2003 behind. *)
Example TrimSpace_unicode :
  TrimSpace (String "194" (String "160" "a b" +:+ String "226" (String "128" (String "131" ""))))
  = "a b".
Proof. reflexivity. Qed.

(** Two continuation bytes without their first byte are no white space. *)
Example TrimSpace_invalid_encoding :
  TrimSpace (String "128" (String "131" "")) = String "128" (String "131" "").
Proof. reflexivity. Qed.

Example plainContentType_examples :
  plainContentType "text/plain; charset=utf-8" = true
  /\ plainContentType "" = false
  /\ plainContentType " text/plain" = false.
Proof. repeat split. Qed.

Lemma length_Repeat_X (n : nat) : String.length (Repeat "X" n) = n.
Proof.
  induction n as [|n IH]; [reflexivity |].
  cbn [Repeat]. push_literal. cbn [String.length]. now rewrite IH.
Qed.

Lemma Repeat_X_only (n : nat) (c : ascii) :
  In c (list_ascii_of_string (Repeat "X" n)) -> c = "X"%char.
Proof.
  induction n as [|n IH]; [cbn; tauto |].
  cbn [Repeat]. push_literal. cbn [list_ascii_of_string In].
  intros [H | H]; [now symmetry | now apply IH].
Qed.

Example Split_env : Split "A=b=c" "="%char = ["A"; "b"; "c"].
Proof. reflexivity. Qed.

Example Split_no_separator : Split "PATH" "="%char = ["PATH"].
Proof. reflexivity. Qed.

Example itoa_port : itoa MinioApiPort = "9000".
Proof. reflexivity. Qed.

Example Contains_pattern :
  Contains "/amazin-object-storage-node-2" ContainerNamePattern = true
  /\ Contains "/gateway-container" ContainerNamePattern = false.
Proof. split; reflexivity. Qed.

Example Debug_masks_test_node :
  Node_Debug (mkNode "node1" "1" "1.1.1.1" "key" "secret") = "node1#1#1.1.1.1#key#XXXXXX".
Proof. reflexivity. Qed.

(** ** The diagnostic text of a node *)

(** C9. [Node.Debug] shows the secret key only through [maskSecret]: the
    mask has the length of the secret and consists of the letter X, and two
    nodes that differ only in their secret keys, of equal length, have the
    same diagnostic text. *)
Theorem Node_Debug_hides_secret (n1 n2 : Node) :
  nID n1 = nID n2 -> nName n1 = nName n2 -> nEndpoint n1 = nEndpoint n2 ->
  nAccessKey n1 = nAccessKey n2 ->
  String.length (nSecretKey n1) = String.length (nSecretKey n2) ->
  Node_Debug n1 = Node_Debug n2
  /\ String.length (maskSecret (nSecretKey n1)) = String.length (nSecretKey n1)
  /\ (forall c, In c (list_ascii_of_string (maskSecret (nSecretKey n1))) -> c = "X"%char).
Proof.
  intros Hid Hname Hep Hak Hlen. split; [| split].
  - unfold Node_Debug, maskSecret. now rewrite Hid, Hname, Hep, Hak, Hlen.
  - apply length_Repeat_X.
  - intros c. apply Repeat_X_only.
Qed.

Lemma Node_Debug_hides_secret_witness :
  Node_Debug (mkNode "node1" "1" "1.1.1.1" "key" "secret")
  = Node_Debug (mkNode "node1" "1" "1.1.1.1" "key" "potato").
Proof.
  apply (Node_Debug_hides_secret
           (mkNode "node1" "1" "1.1.1.1" "key" "secret")
           (mkNode "node1" "1" "1.1.1.1" "key" "potato")); reflexivity.
Defined.

(** ** Node discovery *)

Section Discovery.

Variable inspect : string -> string + list string.

Lemma discoverLoop_skip (container : Container) (rest : list Container) (acc : list Node) :
  candidate container = false ->
  discoverLoop inspect (container :: rest) acc = discoverLoop inspect rest acc.
Proof.
  unfold candidate. cbn [discoverLoop].
  destruct (String.eqb (cID container) ""); [reflexivity |].
  destruct (bool_decide (is_Some (cNetworkSettings container))); [| reflexivity].
  cbn. now intros ->.
Qed.

Lemma discoverLoop_candidate (container : Container) (rest : list Container)
    (acc : list Node) :
  candidate container = true -> addressed container = true ->
  discoverLoop inspect (container :: rest) acc
  = match inspect (cID container) with
    | inl e => Err ("unable to inspect container " +:+ cID container +:+ ": " +:+ e)
    | inr env => discoverLoop inspect rest (acc ++ [nodeOf container env])
    end.
Proof.
  unfold candidate, addressed. cbn [discoverLoop].
  destruct (String.eqb (cID container) ""); [discriminate |].
  destruct (bool_decide (is_Some (cNetworkSettings container))); [| discriminate].
  cbn. intros ->. cbn.
  destruct (String.eqb (resolveAddress container) ""); [discriminate | reflexivity].
Qed.

Lemma discoverLoop_all (containers : list Container) (acc : list Node) :
  forallb addressed (List.filter candidate containers) = true ->
  forallb (inspectable inspect) (List.filter candidate containers) = true ->
  discoverLoop inspect containers acc
  = Ok (acc ++ map (nodeFor inspect) (List.filter candidate containers)).
Proof.
  revert acc. induction containers as [| c rest IH]; intros acc Haddr Hins.
  - cbn. now rewrite app_nil_r.
  - cbn [List.filter] in *. destruct (candidate c) eqn:Hc.
    + cbn [forallb] in *.
      apply andb_true_iff in Haddr as [Ha Haddr].
      apply andb_true_iff in Hins as [Hi Hins].
      rewrite (discoverLoop_candidate _ _ _ Hc Ha).
      unfold inspectable in Hi. unfold nodeFor at 1. cbn [map].
      destruct (inspect (cID c)) as [e | env]; [discriminate |].
      rewrite (IH _ Haddr Hins). now rewrite <- app_assoc.
    + rewrite (discoverLoop_skip _ _ _ Hc). now apply IH.
Qed.

Lemma discoverLoop_inspect_error (containers : list Container) (acc : list Node) :
  forallb addressed (List.filter candidate containers) = true ->
  forallb (inspectable inspect) (List.filter candidate containers) = false ->
  exists before c after e,
    List.filter candidate containers = before ++ c :: after
    /\ forallb (inspectable inspect) before = true
    /\ inspect (cID c) = inl e
    /\ discoverLoop inspect containers acc
       = Err ("unable to inspect container " +:+ cID c +:+ ": " +:+ e).
Proof.
  revert acc. induction containers as [| c rest IH]; intros acc Haddr Hins.
  - discriminate.
  - cbn [List.filter] in *. destruct (candidate c) eqn:Hc.
    + cbn [forallb] in *.
      apply andb_true_iff in Haddr as [Ha Haddr].
      rewrite (discoverLoop_candidate _ _ _ Hc Ha).
      unfold inspectable in Hins at 1.
      destruct (inspect (cID c)) as [e | env] eqn:Hi.
      * exists [], c, (List.filter candidate rest), e.
        split; [reflexivity |]. split; [reflexivity |]. split; [exact Hi | reflexivity].
      * cbn in Hins.
        destruct (IH (acc ++ [nodeOf c env]) Haddr Hins)
          as (before & c' & after & e' & Hsplit & Hbefore & Hi' & Hrun).
        exists (c :: before), c', after, e'.
        split; [now rewrite Hsplit |].
        split; [cbn [forallb]; unfold inspectable at 1; now rewrite Hi |].
        split; [exact Hi' | exact Hrun].
    + rewrite (discoverLoop_skip _ _ _ Hc). now apply IH.
Qed.

End Discovery.

(** C8, as the code has it.  When the listing fails, so does the operation.
    When the listing succeeds and every candidate (an id, network settings,
    a first name containing the pattern) has an address: the operation
    returns the nodes of exactly the candidates, in the order of the
    listing, if each of them can be inspected, and otherwise returns the
    error of the inspection of the first candidate, in the order of the
    listing, that cannot be inspected. *)
Theorem discovery_returns_candidates (cli : DockerClient) :
  (forall e, ContainerList cli = inl e ->
     getAvailableStorageNodes (Some cli) = Err ("unable to list containers: " +:+ e))
  /\ (forall containers, ContainerList cli = inr containers ->
      forallb addressed (List.filter candidate containers) = true ->
      (forallb (inspectable (ContainerInspect cli)) (List.filter candidate containers) = true ->
       getAvailableStorageNodes (Some cli)
       = Ok (map (nodeFor (ContainerInspect cli)) (List.filter candidate containers)))
      /\ (forallb (inspectable (ContainerInspect cli)) (List.filter candidate containers) = false ->
          exists before c after e,
            List.filter candidate containers = before ++ c :: after
            /\ forallb (inspectable (ContainerInspect cli)) before = true
            /\ ContainerInspect cli (cID c) = inl e
            /\ getAvailableStorageNodes (Some cli)
               = Err ("unable to inspect container " +:+ cID c +:+ ": " +:+ e))).
Proof.
  split.
  - intros e He. unfold getAvailableStorageNodes. now rewrite He.
  - intros containers Hl Haddr. unfold getAvailableStorageNodes. rewrite Hl. split.
    + intros Hins. now rewrite (discoverLoop_all _ _ [] Haddr Hins).
    + intros Hins. exact (discoverLoop_inspect_error _ _ [] Haddr Hins).
Qed.

Lemma discovery_returns_candidates_witness :
  getAvailableStorageNodes (Some Fixture.docker)
  = Ok [ mkNode "c1" "/amazin-object-storage-node-1" "10.0.0.1:9000" "ring" "treepotato";
         mkNode "c2" "/amazin-object-storage-node-2" "10.0.0.2:9000" "ring" "treepotato";
         mkNode "c3" "/amazin-object-storage-node-3" "10.0.0.3:9000" "ring" "treepotato" ].
Proof.
  exact (proj1 (proj2 (discovery_returns_candidates Fixture.docker)
                  Fixture.containers eq_refl eq_refl) eq_refl).
Defined.

(** C8, as stated, fails: the listing below is returned without error, and
    the operation still returns an error, that of the inspection of the
    first storage container. *)
Lemma discovery_error_without_listing_failure :
  ContainerList Fixture.dockerInspectFails = inr Fixture.containers
  /\ getAvailableStorageNodes (Some Fixture.dockerInspectFails)
     = Err "unable to inspect container c1: No such container: c1".
Proof. split; reflexivity. Qed.

(** A storage container without an address ends the process at line 213. *)
Example discovery_exits_without_address :
  getAvailableStorageNodes (Some Fixture.dockerNoAddress) = Exit 1.
Proof. reflexivity. Qed.

Section RouterProofs.

Variable xxhash : list byte -> Z.
Variable endpointError : string -> option string.
Variable bucketNameError : string -> option string.
Variable objectNameError : string -> option string.

Local Abbreviation Get := (MinioStorage_Get bucketNameError objectNameError).
Local Abbreviation Put := (MinioStorage_Put bucketNameError objectNameError).
Local Abbreviation RouterInit := (DistributedStorage_Init xxhash endpointError bucketNameError).
Local Abbreviation RouterPut := (DistributedStorage_Put xxhash bucketNameError objectNameError).
Local Abbreviation RouterGet := (DistributedStorage_Get xxhash bucketNameError objectNameError).

(** ** The Minio adapter *)

(** C10. [MinioStorage.Get] recognises a missing object by the text of the
    error: whenever the client fails at [GetObject] or at [Stat] with an
    error whose text contains "The specified key does not exist.", the
    adapter returns (nil, nil), whatever the failure was. *)
Theorem Get_not_found_by_error_text (w : gmap string server) (s : MinioStorage)
    (id err : string) :
  Contains err "The specified key does not exist." = true ->
  client_GetObject bucketNameError objectNameError (msClient s) (msBucketName s) id = inl err
  \/ (exists mObj,
        client_GetObject bucketNameError objectNameError (msClient s) (msBucketName s) id
        = inr mObj
        /\ minioObject_Stat w mObj = inl err) ->
  Get w s id = Ok None.
Proof.
  intros Hc [Hopen | (mObj & Hopen & Hstat)]; unfold MinioStorage_Get; rewrite Hopen.
  - unfold handleKeyDoesNotExistError, keyDoesNotExist, MinioKeyNotExistErrString.
    now rewrite Hc.
  - rewrite Hstat.
    unfold handleKeyDoesNotExistError, keyDoesNotExist, MinioKeyNotExistErrString.
    now rewrite Hc.
Qed.

(** An error at [GetObject] or at [Stat] whose text does not contain the
    phrase is returned, wrapped. *)
Lemma handleKeyDoesNotExistError_other (s : MinioStorage) (err pfx id : string) :
  Contains err MinioKeyNotExistErrString = false ->
  handleKeyDoesNotExistError s err pfx id
  = Err (pfx +:+ " (" +:+ msEndpoint s +:+ " | " +:+ id +:+ "): " +:+ err).
Proof. intros H. unfold handleKeyDoesNotExistError, keyDoesNotExist. now rewrite H. Qed.

(** The server answers; used by the two lemmas on [Put] and [Get]. *)
Lemma connect_setBuckets (w : gmap string server) (c : MinioClient)
    (buckets buckets' : gmap string (gmap string stored)) :
  connect w c = inr buckets ->
  connect (setBuckets w c buckets') c = inr buckets'.
Proof.
  unfold connect, setBuckets.
  destruct (w !! mcEndpoint c) as [[e | ak sk bs | e ak sk bs] |] eqn:Hw; try discriminate.
  destruct (String.eqb ak (mcAccessKey c) && String.eqb sk (mcSecretKey c)) eqn:Hcred;
    [| discriminate].
  intros _. rewrite lookup_insert_eq. now rewrite Hcred.
Qed.

(** What a successful [PutObject] has checked and written. *)
Lemma client_PutObject_ok (w w' : gmap string server) (c : MinioClient)
    (bucket name : string) (body : list byte) (ct : string) :
  client_PutObject bucketNameError objectNameError w c bucket name body ct = (None, w') ->
  bucketNameError bucket = None /\ objectNameError name = None
  /\ exists buckets objects,
       connect w c = inr buckets /\ buckets !! bucket = Some objects
       /\ w' = setBuckets w c
                 (<[bucket := <[name := mkStored (sentContentType ct) body]> objects]> buckets).
Proof.
  unfold client_PutObject. cbv zeta.
  destruct (bucketNameError bucket); [discriminate |].
  destruct (objectNameError name); [discriminate |].
  destruct (connect w c) as [e | buckets] eqn:Hc.
  { destruct (received w c) as [bs |]; [destruct (bs !! bucket) |]; discriminate. }
  destruct (buckets !! bucket) as [objects |] eqn:Hb; [| discriminate].
  intros [= <-]. repeat split; eauto.
Qed.

Lemma Put_ok_inv (w w' : gmap string server) (s : MinioStorage) (object : option Object) :
  Put w s object = (Ok tt, w') ->
  exists o, object = Some o
    /\ client_PutObject bucketNameError objectNameError w (msClient s) (msBucketName s)
         (ID o) (Content o) (ContentType o) = (None, w').
Proof.
  unfold MinioStorage_Put. destruct object as [o |]; [| discriminate].
  destruct (client_PutObject _ _ _ _ _ _ _ _) as [[e |] w1] eqn:Hp; [discriminate |].
  intros [= <-]. eauto.
Qed.

(** The adapter returns what it stored: the id and the content of the
    object, and the content type as the client sends and reports it. *)
Lemma MinioStorage_Put_Get (w w' : gmap string server) (s : MinioStorage) (o : Object) :
  Put w s (Some o) = (Ok tt, w') ->
  Get w' s (ID o)
  = Ok (Some {| ID := ID o;
                ContentType := reportedContentType (sentContentType (ContentType o));
                Content := Content o |}).
Proof.
  intros Hput. apply Put_ok_inv in Hput as (o' & [= <-] & Hput).
  apply client_PutObject_ok in Hput as (Hbn & Hon & buckets & objects & Hc & Hb & ->).
  unfold MinioStorage_Get, client_GetObject. rewrite Hbn, Hon.
  unfold minioObject_Stat, minioObject_ReadAll, fetch. cbn [oClient oBucket oName].
  rewrite (connect_setBuckets _ _ _ _ Hc).
  now rewrite lookup_insert_eq, lookup_insert_eq.
Qed.

(** The adapter on a server that answers and holds the bucket but no object
    under [id]. *)
Lemma MinioStorage_Get_absent (w : gmap string server) (s : MinioStorage) (id : string)
    (buckets : gmap string (gmap string stored)) (objects : gmap string stored) :
  bucketNameError (msBucketName s) = None -> objectNameError id = None ->
  connect w (msClient s) = inr buckets ->
  buckets !! msBucketName s = Some objects ->
  objects !! id = None ->
  Get w s id = Ok None.
Proof.
  intros Hbn Hon Hc Hb Ho.
  unfold MinioStorage_Get, client_GetObject. rewrite Hbn, Hon.
  unfold minioObject_Stat, fetch. cbn [oClient oBucket oName]. now rewrite Hc, Hb, Ho.
Qed.

(** ** The router: [Put] and [Get] *)

(** [Put] and [Get] resolve the adapter in the same way: by the token that
    [locate] returns for the id. *)
Lemma RouterPut_ok_inv (s : DistributedStorage) (w w' : gmap string server)
    (object : option Object) :
  RouterPut s w object = (Ok tt, w') ->
  exists o key storage,
    object = Some o /\ ID o <> ""
    /\ locate xxhash s (ID o) = Ok key
    /\ availableStorages s !! key = Some storage
    /\ Put w storage (Some o) = (Ok tt, w').
Proof.
  unfold DistributedStorage_Put. destruct object as [o |]; [| discriminate].
  destruct (String.eqb (ID o) "") eqn:Hid; [discriminate |].
  destruct (locate xxhash s (ID o)) as [key | | |] eqn:Hloc; try discriminate.
  destruct (availableStorages s !! key) as [storage |] eqn:Hreg; [| discriminate].
  destruct (Put w storage (Some o)) as [[[] | | |] w1] eqn:Hput; try discriminate.
  intros [= <-]. exists o, key, storage. repeat split; try assumption.
  now apply String.eqb_neq.
Qed.

(** After a successful [Put], [Get] of the id returns the id and the content
    of the object, and the content type as the client sends and reports
    it. *)
Lemma RouterPut_Get (s : DistributedStorage) (w : gmap string server) (o : Object) :
  (RouterPut s w (Some o)).1 = Ok tt ->
  ID o <> ""
  /\ RouterGet s (RouterPut s w (Some o)).2 (ID o)
     = Ok (Some {| ID := ID o;
                   ContentType := reportedContentType (sentContentType (ContentType o));
                   Content := Content o |}).
Proof.
  destruct (RouterPut s w (Some o)) as [r w'] eqn:Hput. cbn [fst snd]. intros ->.
  apply RouterPut_ok_inv in Hput as (o' & key & storage & [= <-] & Hid & Hloc & Hreg & Hput).
  split; [assumption |].
  unfold DistributedStorage_Get. rewrite Hloc, Hreg.
  now rewrite (MinioStorage_Put_Get _ _ _ _ Hput).
Qed.

(** C1, as the code and its client have it.  Round trip through the router:
    when [Put] of an object succeeds, its id is not empty, and [Get] of its
    id on the same router, in the state of the backends that [Put] left,
    returns an object with the same id and content.  The content type is
    the same too when the one put is not empty and has no white space at
    its ends; it is [application/octet-stream] when the one put is
    empty. *)
Theorem Router_Put_then_Get (s : DistributedStorage) (w : gmap string server) (o : Object) :
  (RouterPut s w (Some o)).1 = Ok tt ->
  ID o <> ""
  /\ (exists contentType,
        RouterGet s (RouterPut s w (Some o)).2 (ID o)
        = Ok (Some {| ID := ID o; ContentType := contentType; Content := Content o |}))
  /\ (ContentType o <> "" -> TrimSpace (ContentType o) = ContentType o ->
      RouterGet s (RouterPut s w (Some o)).2 (ID o) = Ok (Some o))
  /\ (ContentType o = "" ->
      RouterGet s (RouterPut s w (Some o)).2 (ID o)
      = Ok (Some {| ID := ID o; ContentType := "application/octet-stream";
                    Content := Content o |})).
Proof.
  intros Hput. destruct (RouterPut_Get s w o Hput) as [Hid Hget].
  split; [exact Hid |]. split; [eexists; exact Hget |]. split.
  - intros Hne Htrim. rewrite Hget, (contentType_kept _ Hne Htrim). now destruct o.
  - intros Hempty. rewrite Hget, Hempty. reflexivity.
Qed.

(** C2. Not found is not an error.  On a server that answers and holds the
    bucket but no object under [id], the adapter returns (nil, nil); and
    when the adapter that the router resolves for [id] returns (nil, nil),
    so does the router. *)
Theorem Get_absent_is_empty_result (s : DistributedStorage) (w : gmap string server)
    (storage : MinioStorage) (id key : string)
    (buckets : gmap string (gmap string stored)) (objects : gmap string stored) :
  bucketNameError (msBucketName storage) = None -> objectNameError id = None ->
  connect w (msClient storage) = inr buckets ->
  buckets !! msBucketName storage = Some objects ->
  objects !! id = None ->
  Get w storage id = Ok None
  /\ (locate xxhash s id = Ok key -> availableStorages s !! key = Some storage ->
      RouterGet s w id = Ok None).
Proof.
  intros Hbn Hon Hc Hb Ho.
  pose proof (MinioStorage_Get_absent w storage id buckets objects Hbn Hon Hc Hb Ho) as Hget.
  split; [exact Hget |].
  intros Hloc Hreg. unfold DistributedStorage_Get. now rewrite Hloc, Hreg, Hget.
Qed.

(** The router hands on an empty result of the resolved adapter, whatever
    made the adapter return it. *)
Lemma RouterGet_propagates_empty (s : DistributedStorage) (w : gmap string server)
    (storage : MinioStorage) (id key : string) :
  locate xxhash s id = Ok key -> availableStorages s !! key = Some storage ->
  Get w storage id = Ok None ->
  RouterGet s w id = Ok None.
Proof. intros Hloc Hreg Hget. unfold DistributedStorage_Get. now rewrite Hloc, Hreg, Hget. Qed.

(** The router's [Put] checks its argument before anything else and leaves
    the backends as they are. *)
Lemma RouterPut_validates (s : DistributedStorage) (w : gmap string server) :
  RouterPut s w None = (Err "object is empty", w)
  /\ forall o, ID o = "" -> RouterPut s w (Some o) = (Err "object is empty", w).
Proof.
  split; [reflexivity |]. intros o Ho. unfold DistributedStorage_Put. now rewrite Ho.
Qed.

(** C6. The two implementations of [Put] on an empty (nil) object: the
    router returns the error "object is empty" and writes nothing; the Minio
    adapter has no such check and panics on the nil dereference of
    [object.ID]. *)
Theorem Put_nil_object (s : DistributedStorage) (storage : MinioStorage)
    (w : gmap string server) :
  RouterPut s w None = (Err "object is empty", w)
  /\ Put w storage None = (Panic nilDeref, w).
Proof. split; reflexivity. Qed.

(** On an empty id the adapter hands the object to the client as it is; the
    outcome is the client's. *)
Lemma Put_empty_id_forwarded (storage : MinioStorage) (w : gmap string server)
    (ct : string) (body : list byte) :
  Put w storage (Some (mkObject "" ct body))
  = match client_PutObject bucketNameError objectNameError w (msClient storage)
            (msBucketName storage) "" body ct with
    | (Some err, w') =>
        (Err ("error put object (" +:+ msEndpoint storage +:+ " | " +:+ "" +:+ "): " +:+ err), w')
    | (None, w') => (Ok tt, w')
    end.
Proof. reflexivity. Qed.

(** ** The hash ring *)

Lemma foldl_preserves {A B : Type} (P : A -> Prop) (f : A -> B -> A) (l : list B) (a : A) :
  P a -> (forall a' x, P a' -> P (f a' x)) -> P (foldl f a l).
Proof.
  intros Ha Hstep. revert a Ha.
  induction l as [| x l IH]; intros a Ha; cbn; [assumption |].
  apply IH. now apply Hstep.
Qed.

Local Abbreviation wf := (ring_wf).
Local Abbreviation Add := (consistent_Add xxhash).
Local Abbreviation Locate := (LocateKey xxhash).

(** A partition handed out by [distributeWithLoad] goes to a replica that
    is on the ring. *)
Lemma distributeWithLoad_loop_owner (c : Consistent) (avg partID : Z) (remaining : nat) :
  forall (idx : nat) (parts parts' : gmap Z Node) (lds lds' : gmap string Z),
    distributeWithLoad_loop c avg partID remaining idx parts lds = Ok (parts', lds') ->
    forall p m, parts' !! p = Some m ->
      parts !! p = Some m \/ exists h, ring c !! h = Some m.
Proof.
  induction remaining as [| r IH]; intros idx parts parts' lds lds' H p m Hp; cbn in H.
  - discriminate.
  - destruct (sortedSet c !! idx) as [i |]; [| discriminate].
    destruct (ring c !! i) as [member |] eqn:Hr; [| discriminate].
    destruct (default 0 (lds !! Node_String member) + 1 <=? avg).
    + injection H as <- <-.
      destruct (decide (partID = p)) as [-> | Hne].
      * rewrite lookup_insert_eq in Hp. injection Hp as <-. right. eauto.
      * rewrite lookup_insert_ne in Hp by assumption. now left.
    + eapply IH; eassumption.
Qed.

Lemma distributePartitions_inv (c c' : Consistent) :
  distributePartitions xxhash c = Ok c' ->
  ring c' = ring c /\ members c' = members c /\ partitionCount c' = partitionCount c
  /\ forall p m, partitions c' !! p = Some m -> exists h, ring c !! h = Some m.
Proof.
  unfold distributePartitions.
  match goal with |- context [foldl ?f ?a ?l] => set (F := f); set (r := foldl F a l) end.
  assert (Hr : forall parts lds, r = Ok (parts, lds) ->
                 forall p m, parts !! p = Some m -> exists h, ring c !! h = Some m).
  { subst r. apply foldl_preserves.
    - intros parts lds [= <- <-] p m Hp. now rewrite lookup_empty in Hp.
    - intros acc partID Hacc parts lds Hstep p m Hp. subst F. cbn beta in Hstep.
      destruct acc as [[parts0 lds0] | | |]; cbn in Hstep; try discriminate.
      unfold distributeWithLoad in Hstep.
      destruct (distributeWithLoad_loop_owner _ _ _ _ _ _ _ _ _ Hstep p m Hp) as [Hold | Hnew].
      + eapply Hacc; [reflexivity | eassumption].
      + assumption. }
  destruct r as [[parts lds] | | |]; cbn; try discriminate.
  intros [= <-]. cbn. repeat split; try reflexivity. exact (Hr _ _ eq_refl).
Qed.

Lemma consistent_add_inv (c : Consistent) (member : Node) :
  members (consistent_add xxhash c member) = <[Node_String member := member]> (members c)
  /\ partitionCount (consistent_add xxhash c member) = partitionCount c
  /\ forall h m, ring (consistent_add xxhash c member) !! h = Some m ->
       m = member \/ ring c !! h = Some m.
Proof.
  unfold consistent_add.
  match goal with |- context [foldl ?f ?a ?l] => set (F := f); set (r := foldl F a l) end.
  assert (Hr : forall h m, r.1 !! h = Some m -> m = member \/ ring c !! h = Some m).
  { subst r. apply (foldl_preserves
      (fun acc : gmap Z Node * list Z =>
         forall h m, acc.1 !! h = Some m -> m = member \/ ring c !! h = Some m)).
    - intros h m Hh. now right.
    - intros [rg hashes] i Hacc h m. subst F. cbn.
      match goal with |- context [<[?k := _]> _] => destruct (decide (k = h)) as [-> | Hne] end.
      + rewrite lookup_insert_eq. intros [= <-]. now left.
      + rewrite lookup_insert_ne by assumption. apply Hacc. }
  destruct r as [rg hashes]. cbn in *. repeat split; [exact Hr].
Qed.

Lemma consistent_Add_wf (c c' : Consistent) (member : Node) :
  wf c -> Add c member = Ok c' ->
  wf c' /\ dom (members c') = {[Node_String member]} ∪ dom (members c).
Proof.
  intros (Hring & Hparts & Hpc). unfold consistent_Add. case_bool_decide as Hmem.
  - intros [= <-]. split; [now repeat split |].
    apply elem_of_dom in Hmem. set_solver.
  - intros Hd. apply distributePartitions_inv in Hd as (Hr' & Hm' & Hpc' & Hown).
    destruct (consistent_add_inv c member) as (Hm & Hpc0 & Hrg).
    assert (Hring' : forall h m, ring (consistent_add xxhash c member) !! h = Some m ->
                       is_Some (members c' !! Node_String m)).
    { intros h m Hh. rewrite Hm', Hm. destruct (Hrg h m Hh) as [-> | Hold].
      - rewrite lookup_insert_eq. eauto.
      - destruct (decide (Node_String member = Node_String m)) as [-> | Hne].
        + rewrite lookup_insert_eq. eauto.
        + rewrite lookup_insert_ne by assumption. eapply Hring; eassumption. }
    split.
    + repeat split.
      * intros h m Hh. rewrite Hr' in Hh. eapply Hring'; eassumption.
      * intros p m Hp. destruct (Hown p m Hp) as [h Hh]. eapply Hring'; eassumption.
      * congruence.
    + rewrite Hm', Hm. apply dom_insert_L.
Qed.

Lemma addAll_wf (nodes : list Node) :
  forall c c', wf c -> addAll xxhash c nodes = Ok c' ->
    wf c' /\ dom (members c') = tokens nodes ∪ dom (members c).
Proof.
  induction nodes as [| node rest IH]; intros c c' Hwf H; cbn in H.
  - injection H as <-. split; [assumption |]. unfold tokens. set_solver.
  - destruct (Add c node) as [c1 | | |] eqn:Hadd; cbn in H; try discriminate.
    destruct (consistent_Add_wf _ _ _ Hwf Hadd) as [Hwf1 Hdom1].
    destruct (IH _ _ Hwf1 H) as [Hwf' Hdom'].
    split; [assumption |]. rewrite Hdom', Hdom1. unfold tokens. cbn. set_solver.
Qed.

Lemma consistent_New_nil (cfg : Config) :
  exists c, consistent_New xxhash None cfg = Ok c
    /\ wf c /\ members c = ∅ /\ partitions c = ∅.
Proof.
  unfold consistent_New. destruct cfg as [pc rf ld]. cbn.
  destruct (pc =? 0) eqn:Hpc; cbn; destruct (rf =? 0); cbn; destruct (Qeq_bool ld 0); cbn;
    (eexists; split; [reflexivity |]; unfold ring_wf; cbn;
     repeat split; try (intros ? ? H; now rewrite lookup_empty in H);
     try discriminate; try (now apply Z.eqb_neq)).
Qed.

Lemma initHashCircle_wf (nodes : list Node) (c : Consistent) :
  initHashCircle xxhash nodes = Ok c ->
  wf c /\ dom (members c) = tokens nodes.
Proof.
  unfold initHashCircle.
  destruct (consistent_New_nil
              {| PartitionCount := Z.of_nat (length nodes); ReplicationFactor := 0;
                 Load := (5 # 4)%Q |}) as (c0 & -> & Hwf0 & Hm0 & _).
  cbn [bind]. intros H. destruct (addAll_wf _ _ _ Hwf0 H) as [Hwf Hdom].
  split; [assumption |]. rewrite Hdom, Hm0. set_solver.
Qed.

(** A located member is a member of the ring. *)
Lemma LocateKey_member (c : Consistent) (key : list byte) (m : Node) :
  wf c -> Locate c key = Ok (Some m) -> Node_String m ∈ dom (members c).
Proof.
  intros (_ & Hparts & _). unfold LocateKey, FindPartitionID.
  destruct (partitionCount c =? 0); cbn; [discriminate |].
  intros [= H]. apply elem_of_dom. eapply Hparts; eassumption.
Qed.

(** Without members there is no partition owner: [LocateKey] returns nil. *)
Lemma LocateKey_no_members (c : Consistent) (key : list byte) :
  wf c -> members c = ∅ -> Locate c key = Ok None.
Proof.
  intros (_ & Hparts & Hpc) Hm. unfold LocateKey, FindPartitionID.
  apply Z.eqb_neq in Hpc. rewrite Hpc. cbn.
  destruct (partitions c !! _) as [m |] eqn:Hp; [| reflexivity].
  destruct (Hparts _ _ Hp) as [x Hx]. now rewrite Hm, lookup_empty in Hx.
Qed.

(** ** The router: initialisation *)

Lemma existsb_pointwise {A : Type} (f g : A -> bool) (l : list A) :
  (forall x, f x = g x) -> existsb f l = existsb g l.
Proof. intros H. induction l as [| x l IH]; cbn; [reflexivity | now rewrite H, IH]. Qed.

Local Abbreviation initNode := (initStorageNode endpointError bucketNameError).
Local Abbreviation initLoop := (initStorages_loop endpointError bucketNameError).
Local Abbreviation fails := (adapterFails endpointError bucketNameError).

(** Writing buckets does not change which requests are answered. *)
Lemma reach_setBuckets (w : gmap string server) (c c' : MinioClient)
    (buckets : gmap string (gmap string stored)) :
  reach (setBuckets w c buckets) c' = reach w c'.
Proof.
  unfold reach, connect, setBuckets.
  destruct (w !! mcEndpoint c) as [[e | ak sk bs | e ak sk bs] |] eqn:Hw; try reflexivity.
  - destruct (decide (mcEndpoint c = mcEndpoint c')) as [Heq | Hne].
    + rewrite <- Heq, lookup_insert_eq, Hw.
      now destruct (String.eqb ak (mcAccessKey c') && String.eqb sk (mcSecretKey c')).
    + now rewrite lookup_insert_ne.
  - destruct (decide (mcEndpoint c = mcEndpoint c')) as [Heq | Hne].
    + now rewrite <- Heq, lookup_insert_eq, Hw.
    + now rewrite lookup_insert_ne.
Qed.

Lemma MinioStorage_Init_reach (w : gmap string server) (st : MinioStorage) (c : MinioClient) :
  reach (MinioStorage_Init bucketNameError w st).2 c = reach w c.
Proof.
  unfold MinioStorage_Init, client_BucketExists, client_MakeBucket.
  destruct (bucketNameError (msBucketName st)); [reflexivity |].
  destruct (connect w (msClient st)) as [e | buckets]; [reflexivity |].
  case_bool_decide as Hb; [reflexivity |].
  destruct (buckets !! msBucketName st); [reflexivity |].
  cbn. apply reach_setBuckets.
Qed.

(** [Init] of the adapter fails exactly when the bucket name is refused or
    the server does not answer. *)
Lemma MinioStorage_Init_outcome (w : gmap string server) (st : MinioStorage) :
  match (MinioStorage_Init bucketNameError w st).1 with
  | Ok _ => bucketNameError (msBucketName st) = None /\ reach w (msClient st) = None
  | Err _ => bucketNameError (msBucketName st) <> None \/ reach w (msClient st) <> None
  | _ => False
  end.
Proof.
  unfold MinioStorage_Init, client_BucketExists, client_MakeBucket, reach.
  destruct (bucketNameError (msBucketName st)); [cbn; now left |].
  destruct (connect w (msClient st)) as [e | buckets]; [cbn; now right |].
  case_bool_decide as Hb; [now cbn |].
  destruct (buckets !! msBucketName st) eqn:Hl; [exfalso; apply Hb; eauto |].
  now cbn.
Qed.

Lemma initStorageNode_spec (s : DistributedStorage) (w : gmap string server) (node : Node) :
  (forall c, reach (initNode s w node).2 c = reach w c)
  /\ match (initNode s w node).1 with
     | Ok _ =>
         endpointError (nEndpoint node) = None /\ bucketNameError (bucketName s) = None
         /\ reach w (clientOf node) = None
     | Err err =>
         identifies err node
         /\ (endpointError (nEndpoint node) <> None \/ bucketNameError (bucketName s) <> None
             \/ reach w (clientOf node) <> None)
     | _ => False
     end.
Proof.
  unfold initStorageNode, NewMinioStorage. cbn [cfgEndpoint cfgAccessKey cfgSecretKey cfgBucketName].
  destruct (endpointError (nEndpoint node)) as [e |].
  - split; [reflexivity |]. cbn.
    split; [eexists; left; now rewrite Node_Debug_append | now left].
  - match goal with |- context [MinioStorage_Init _ w ?st] => set (storage := st) end.
    pose proof (MinioStorage_Init_reach w storage) as Hreach.
    pose proof (MinioStorage_Init_outcome w storage) as Hout.
    destruct (MinioStorage_Init bucketNameError w storage) as [[[] | e | m | k] w']; cbn in *.
    + split; [assumption |]. destruct Hout. now repeat split.
    + split; [assumption |].
      split; [eexists; right; now rewrite Node_Debug_append |]. right. exact Hout.
    + contradiction.
    + contradiction.
Qed.

(** Whether the adapter of a node fails does not depend on what the
    adapters of other nodes have done before. *)
Lemma fails_stable (s s' : DistributedStorage) (w w' : gmap string server) (node : Node) :
  bucketName s' = bucketName s -> (forall c, reach w' c = reach w c) ->
  fails s' w' node = fails s w node.
Proof.
  intros Hb Hr. unfold adapterFails.
  destruct (initStorageNode_spec s w node) as [_ H].
  destruct (initStorageNode_spec s' w' node) as [_ H'].
  rewrite Hb, Hr in H'.
  destruct (initNode s w node).1, (initNode s' w' node).1;
    try reflexivity; try contradiction;
    destruct H as (? & ? & ?) || destruct H as (_ & H);
    destruct H' as (? & ? & ?) || destruct H' as (_ & H'); intuition congruence.
Qed.

Lemma initStorages_loop_circle (nodes : list Node) :
  forall s w, circle (initLoop s w nodes).1.2 = circle s
              /\ bucketName (initLoop s w nodes).1.2 = bucketName s.
Proof.
  induction nodes as [| node rest IH]; intros s w; cbn; [now split |].
  destruct (initNode s w node) as [[storage | e | m | k] w']; cbn; try now split.
  destruct (IH (setStorages s (<[Node_String node := storage]> (availableStorages s))) w')
    as [-> ->]. now split.
Qed.

(** If the adapter of some node fails, the loop stops with the error of a
    failing node. *)
Lemma initStorages_loop_fails (nodes : list Node) :
  forall s w,
    existsb (fails s w) nodes = true ->
    exists n e, In n nodes /\ fails s w n = true /\ identifies e n
                /\ (initLoop s w nodes).1.1 = Err e.
Proof.
  induction nodes as [| node rest IH]; intros s w Hex; cbn in Hex; [discriminate |].
  cbn [initStorages_loop].
  destruct (initStorageNode_spec s w node) as [Hreach Hout].
  destruct (initNode s w node) as [[storage | e | m | k] w'] eqn:Hn; cbn in Hout, Hreach;
    try contradiction.
  - assert (Hnode : fails s w node = false) by (unfold adapterFails; now rewrite Hn).
    rewrite Hnode in Hex. cbn in Hex.
    set (s1 := setStorages s (<[Node_String node := storage]> (availableStorages s))).
    assert (Hst : forall n, fails s1 w' n = fails s w n)
      by (intros n; now apply fails_stable).
    rewrite <- (existsb_pointwise _ _ rest Hst) in Hex.
    destruct (IH s1 w' Hex) as (n & e & Hin & Hf & Hid & Hrun).
    exists n, e. rewrite <- Hst. repeat split; try assumption. now right.
  - exists node, e. cbn. repeat split; [now left | | apply Hout].
    unfold adapterFails. now rewrite Hn.
Qed.

(** After a successful loop the registry holds the tokens of the nodes. *)
Lemma initStorages_loop_dom (nodes : list Node) :
  forall s w s' w',
    initLoop s w nodes = (Ok tt, s', w') ->
    dom (availableStorages s') = tokens nodes ∪ dom (availableStorages s).
Proof.
  induction nodes as [| node rest IH]; intros s w s' w' H; cbn in H.
  - injection H as <- <-. unfold tokens. set_solver.
  - destruct (initNode s w node) as [[storage | e | m | k] w1]; try discriminate.
    apply IH in H. rewrite H. cbn. rewrite dom_insert_L. unfold tokens. cbn. set_solver.
Qed.

Lemma Init_ok_inv (s s' : DistributedStorage) (w w' : gmap string server) :
  RouterInit s w = (Ok tt, s', w') ->
  exists nodes s1 c,
    getAvailableStorageNodes (client s) = Ok nodes
    /\ initStorages endpointError bucketNameError s w nodes = (Ok tt, s1, w')
    /\ initHashCircle xxhash nodes = Ok c
    /\ s' = setCircle s1 c.
Proof.
  unfold DistributedStorage_Init.
  destruct (getAvailableStorageNodes (client s)) as [nodes | | |]; try discriminate.
  destruct (initStorages _ _ s w nodes) as [[[[] | | |] s1] w1] eqn:Hst; try discriminate.
  destruct (initHashCircle xxhash nodes) as [c | | |] eqn:Hc; try discriminate.
  intros [= <- <-]. exists nodes, s1, c. now repeat split.
Qed.

(** C3. All-or-nothing initialisation: when the adapter of some discovered
    node cannot be constructed or fails its [Init], the router's [Init]
    returns an error that identifies a failing node: its text spells out the
    id, the name, the endpoint and the access key of that node.  The ring is
    left as it was (nil on a new router). *)
Theorem Init_all_or_nothing (s : DistributedStorage) (w : gmap string server)
    (nodes : list Node) :
  getAvailableStorageNodes (client s) = Ok nodes ->
  existsb (fails s w) nodes = true ->
  exists n e,
    In n nodes /\ fails s w n = true /\ identifies e n
    /\ (RouterInit s w).1.1 = Err e
    /\ circle (RouterInit s w).1.2 = circle s.
Proof.
  intros Hnodes Hex.
  assert (Hst : forall n, fails (setStorages s ∅) w n = fails s w n)
    by (intros n; now apply fails_stable).
  rewrite <- (existsb_pointwise _ _ nodes Hst) in Hex.
  destruct (initStorages_loop_fails nodes _ w Hex) as (n & e & Hin & Hf & Hid & Hrun).
  destruct (initStorages_loop_circle nodes (setStorages s ∅) w) as [Hcirc _].
  exists n, e. rewrite <- Hst. repeat split; try assumption.
  - unfold DistributedStorage_Init, initStorages. rewrite Hnodes.
    destruct (initLoop (setStorages s ∅) w nodes) as [[r s1] w1]. cbn in Hrun. now subst r.
  - unfold DistributedStorage_Init, initStorages. rewrite Hnodes.
    destruct (initLoop (setStorages s ∅) w nodes) as [[r s1] w1]. cbn in Hrun, Hcirc.
    now subst r.
Qed.

(** An error of [Init] leaves the ring as it was. *)
Lemma Init_error_keeps_circle (s : DistributedStorage) (w : gmap string server) (e : string) :
  (RouterInit s w).1.1 = Err e -> circle (RouterInit s w).1.2 = circle s.
Proof.
  unfold DistributedStorage_Init, initStorages.
  destruct (getAvailableStorageNodes (client s)) as [nodes | | |]; cbn [fst snd];
    try reflexivity.
  destruct (initStorages_loop_circle nodes (setStorages s ∅) w) as [Hcirc _].
  destruct (initLoop (setStorages s ∅) w nodes) as [[[[] | | |] s1] w1];
    cbn [fst snd] in *; try (intros _; exact Hcirc).
  destruct (initHashCircle xxhash nodes); cbn [fst snd]; try discriminate.
  intros _. exact Hcirc.
Qed.

(** [locate] either finds a token or panics. *)
Lemma locate_not_error (s : DistributedStorage) (id e : string) :
  locate xxhash s id <> Err e.
Proof.
  unfold locate, LocateKey, FindPartitionID. destruct (circle s) as [c |]; [| discriminate].
  destruct (partitionCount c =? 0); cbn; [discriminate |].
  destruct (partitions c !! _); discriminate.
Qed.

Lemma locate_registered (s : DistributedStorage) (c : Consistent) (id key : string) :
  circle s = Some c -> ring_wf c -> dom (members c) = dom (availableStorages s) ->
  locate xxhash s id = Ok key -> is_Some (availableStorages s !! key).
Proof.
  intros Hc Hwf Hdom. unfold locate. rewrite Hc.
  destruct (Locate c (list_byte_of_string id)) as [[m |] | | |] eqn:Hl; cbn; try discriminate.
  intros [= <-]. apply elem_of_dom. rewrite <- Hdom. eapply LocateKey_member; eassumption.
Qed.

(** C7. Ring and registry correspond after a successful [Init]: the member
    tokens of the ring are the keys of the registry, every token that
    [locate] returns has an adapter, and neither [Put] nor [Get] returns the
    error of the defensive branch "storage node not available". *)
Theorem ring_matches_registry (s : DistributedStorage) (w : gmap string server) :
  (RouterInit s w).1.1 = Ok tt ->
  exists c,
    circle (RouterInit s w).1.2 = Some c
    /\ dom (members c) = dom (availableStorages (RouterInit s w).1.2)
    /\ (forall id key, locate xxhash (RouterInit s w).1.2 id = Ok key ->
          is_Some (availableStorages (RouterInit s w).1.2 !! key))
    /\ (forall w1 object key,
          (RouterPut (RouterInit s w).1.2 w1 object).1 <> Err (putNodeUnavailable key))
    /\ (forall w1 id key,
          RouterGet (RouterInit s w).1.2 w1 id <> Err (getNodeUnavailable key)).
Proof.
  destruct (RouterInit s w) as [[r s'] w'] eqn:Hinit. cbn [fst snd]. intros ->.
  apply Init_ok_inv in Hinit as (nodes & s1 & c & _ & Hst & Hc & ->).
  apply initHashCircle_wf in Hc as [Hwf Hmem].
  apply initStorages_loop_dom in Hst. cbn in Hst. rewrite dom_empty_L, union_empty_r_L in Hst.
  assert (Hdom : dom (members c) = dom (availableStorages (setCircle s1 c)))
    by (cbn; congruence).
  assert (Hloc : forall id key, locate xxhash (setCircle s1 c) id = Ok key ->
                   is_Some (availableStorages (setCircle s1 c) !! key))
    by (intros id key; now apply (locate_registered _ c)).
  exists c. repeat split; try assumption.
  - intros w1 object key. unfold DistributedStorage_Put, putNodeUnavailable.
    destruct object as [o |]; [| cbn; push_literal; discriminate].
    destruct (String.eqb (ID o) ""); [cbn; push_literal; discriminate |].
    destruct (locate xxhash (setCircle s1 c) (ID o)) as [k | e | m | x] eqn:Hl;
      try (cbn; discriminate).
    + destruct (Hloc _ _ Hl) as [storage ->].
      destruct (Put w1 storage (Some o)) as [[[] | e | m | x] w2]; cbn; discriminate.
    + now apply locate_not_error in Hl.
  - intros w1 id key. unfold DistributedStorage_Get, getNodeUnavailable.
    destruct (locate xxhash (setCircle s1 c) id) as [k | e | m | x] eqn:Hl;
      try discriminate.
    + destruct (Hloc _ _ Hl) as [storage ->].
      destruct (Get w1 storage id) as [o | e | m | x]; discriminate.
    + now apply locate_not_error in Hl.
Qed.

(** C5. A router whose ring has no members: [Get], and [Put] of an object
    with an id, end in the panic of a nil dereference ([LocateKey] returns
    the nil member and [String] is called on it); no error is returned. *)
Theorem empty_ring_panics (s : DistributedStorage) (w : gmap string server) (c : Consistent) :
  (RouterInit s w).1.1 = Ok tt ->
  circle (RouterInit s w).1.2 = Some c ->
  members c = ∅ ->
  (forall w1 id, RouterGet (RouterInit s w).1.2 w1 id = Panic nilDeref)
  /\ (forall w1 o, String.eqb (ID o) "" = false ->
        RouterPut (RouterInit s w).1.2 w1 (Some o) = (Panic nilDeref, w1)).
Proof.
  destruct (RouterInit s w) as [[r s'] w'] eqn:Hinit. cbn [fst snd]. intros -> Hcirc Hm.
  apply Init_ok_inv in Hinit as (nodes & s1 & c' & _ & _ & Hc & ->).
  cbn in Hcirc. injection Hcirc as ->.
  apply initHashCircle_wf in Hc as [Hwf _].
  assert (Hloc : forall id, locate xxhash (setCircle s1 c) id = Panic nilDeref).
  { intros id. unfold locate. cbn [circle setCircle].
    now rewrite (LocateKey_no_members _ _ Hwf Hm). }
  split.
  - intros w1 id. unfold DistributedStorage_Get. now rewrite Hloc.
  - intros w1 o Hid. unfold DistributedStorage_Put. now rewrite Hid, Hloc.
Qed.

(** ** Start-up *)

(** C4. [main] does not look at the result of [Init]: when [Init] returns
    an error, [main] still starts the gateway server, over a router whose
    ring is nil, so that every [Get] panics. *)
Theorem main_starts_after_Init_error (env : gmap string string) (cli : option DockerClient)
    (w : gmap string server) (e : string) :
  (RouterInit (NewDistributedStorage cli (getEnvWithFallback env EnvBucketName "default")) w).1.1
  = Err e ->
  exists s' w',
    main xxhash endpointError bucketNameError env cli w
    = (Ok {| listenAddr := ":3000"; served := s'; initResult := Some e |}, w')
    /\ circle s' = None
    /\ forall w1 id, RouterGet s' w1 id = Panic nilDeref.
Proof.
  intros Herr. pose proof (Init_error_keeps_circle _ _ _ Herr) as Hcirc.
  unfold main.
  destruct (RouterInit _ w) as [[r s'] w']. cbn in Herr, Hcirc. subst r.
  exists s', w'. repeat split; [assumption |].
  intros w1 id. unfold DistributedStorage_Get, locate. now rewrite Hcirc.
Qed.

(** When no storage container is running, [Init] succeeds and builds a ring
    without members. *)
Lemma Init_without_nodes (cli : DockerClient) (bucket : string) (w : gmap string server) :
  ContainerList cli = inr [] ->
  exists s' c,
    RouterInit (NewDistributedStorage (Some cli) bucket) w = (Ok tt, s', w)
    /\ circle s' = Some c /\ members c = ∅ /\ availableStorages s' = ∅.
Proof.
  intros Hl. unfold DistributedStorage_Init, getAvailableStorageNodes.
  cbn [client NewDistributedStorage]. rewrite Hl. cbn.
  eexists _, _. repeat split.
Qed.

End RouterProofs.

(** ** The theorems on the concrete deployment *)

Lemma Router_Put_then_Get_witness :
  Fixture.Get Fixture.router1
    (Fixture.Put Fixture.router1 Fixture.world1 (Some Fixture.hello)).2 "object-1"
  = Ok (Some Fixture.hello).
Proof.
  refine (proj1 (proj2 (proj2 (Router_Put_then_Get Fixture.fnv1 Fixture.anyBucket
            Fixture.nonEmptyName Fixture.router1 Fixture.world1 Fixture.hello _))) _ _).
  - vm_compute. reflexivity.
  - discriminate.
  - vm_compute. reflexivity.
Defined.

(** C1, as stated, fails: an object put with an empty content type is
    returned with the content type [application/octet-stream]. *)
Lemma Put_then_Get_changes_content_type :
  (Fixture.Put Fixture.router1 Fixture.world1 (Some Fixture.untyped)).1 = Ok tt
  /\ ContentType Fixture.untyped = ""
  /\ Fixture.Get Fixture.router1
       (Fixture.Put Fixture.router1 Fixture.world1 (Some Fixture.untyped)).2
       (ID Fixture.untyped)
     = Ok (Some {| ID := "object-1"; ContentType := "application/octet-stream";
                   Content := list_byte_of_string "Hello, Minio!" |}).
Proof. vm_compute. repeat split. Qed.

(** An object put with a space in front of [text/plain] is returned without
    the space. *)
Example Put_then_Get_trims_content_type :
  (Fixture.Put Fixture.router1 Fixture.world1 (Some Fixture.padded)).1 = Ok tt
  /\ ContentType Fixture.padded = " text/plain"
  /\ Fixture.Get Fixture.router1
       (Fixture.Put Fixture.router1 Fixture.world1 (Some Fixture.padded)).2
       (ID Fixture.padded)
     = Ok (Some {| ID := "object-1"; ContentType := "text/plain";
                   Content := list_byte_of_string "Hello, Minio!" |}).
Proof. vm_compute. repeat split. Qed.

Lemma Get_absent_is_empty_result_witness :
  MinioStorage_Get Fixture.anyBucket Fixture.nonEmptyName Fixture.world1 Fixture.adapter1
    "missingID" = Ok None
  /\ Fixture.Get Fixture.router1 Fixture.world1 "missingID" = Ok None.
Proof.
  destruct (Get_absent_is_empty_result Fixture.fnv1 Fixture.anyBucket Fixture.nonEmptyName
              Fixture.router1 Fixture.world1 Fixture.adapter1 "missingID"
              "c1#/amazin-object-storage-node-1" {["default" := ∅]} ∅) as [Ha Hr];
    try (vm_compute; reflexivity).
  split; [exact Ha |]. apply Hr; vm_compute; reflexivity.
Defined.

Lemma Init_all_or_nothing_witness :
  exists n e,
    In n [ mkNode "c1" "/amazin-object-storage-node-1" "10.0.0.1:9000" "ring" "treepotato";
           mkNode "c2" "/amazin-object-storage-node-2" "10.0.0.2:9000" "ring" "treepotato";
           mkNode "c3" "/amazin-object-storage-node-3" "10.0.0.3:9000" "ring" "treepotato" ]
    /\ adapterFails Fixture.anyEndpoint Fixture.anyBucket Fixture.router0
         Fixture.worldOneDown n = true
    /\ identifies e n
    /\ (Fixture.Init Fixture.router0 Fixture.worldOneDown).1.1 = Err e
    /\ circle (Fixture.Init Fixture.router0 Fixture.worldOneDown).1.2 = None.
Proof.
  apply (Init_all_or_nothing Fixture.fnv1 Fixture.anyEndpoint Fixture.anyBucket
           Fixture.nonEmptyName Fixture.router0 Fixture.worldOneDown);
    vm_compute; reflexivity.
Defined.

(** The error of [Init] when the second of three nodes is down. *)
Example Init_error_names_node :
  (Fixture.Init Fixture.router0 Fixture.worldOneDown).1.1
  = Err ("initialize storage for node "
         +:+ "c2#/amazin-object-storage-node-2#10.0.0.2:9000#ring#XXXXXXXXXX"
         +:+ ": error init bucket (10.0.0.2:9000): unable to check bucket: "
         +:+ "dial tcp 10.0.0.2:9000: i/o timeout").
Proof. vm_compute. reflexivity. Qed.

Lemma main_starts_after_Init_error_witness :
  exists s' w',
    main Fixture.fnv1 Fixture.anyEndpoint Fixture.anyBucket ∅ (Some Fixture.dockerDown)
      Fixture.world
    = (Ok {| listenAddr := ":3000"; served := s';
             initResult := Some "retrieve storage nodes: unable to list containers: Cannot connect to the Docker daemon" |},
       w')
    /\ circle s' = None
    /\ forall w1 id,
         DistributedStorage_Get Fixture.fnv1 Fixture.anyBucket Fixture.nonEmptyName s' w1 id
         = Panic nilDeref.
Proof.
  apply (main_starts_after_Init_error Fixture.fnv1 Fixture.anyEndpoint Fixture.anyBucket
           Fixture.nonEmptyName ∅ (Some Fixture.dockerDown) Fixture.world).
  vm_compute. reflexivity.
Defined.

Lemma empty_ring_panics_witness :
  (Fixture.Init Fixture.routerEmpty Fixture.world).1.1 = Ok tt
  /\ Fixture.Get (Fixture.Init Fixture.routerEmpty Fixture.world).1.2 Fixture.world "object-1"
     = Panic nilDeref
  /\ Fixture.Put (Fixture.Init Fixture.routerEmpty Fixture.world).1.2 Fixture.world
       (Some Fixture.hello)
     = (Panic nilDeref, Fixture.world).
Proof.
  split; [vm_compute; reflexivity |].
  edestruct (empty_ring_panics Fixture.fnv1 Fixture.anyEndpoint Fixture.anyBucket
               Fixture.nonEmptyName Fixture.routerEmpty Fixture.world) as [Hget Hput];
    [vm_compute; reflexivity | vm_compute; reflexivity | vm_compute; reflexivity |].
  split; [apply Hget | apply Hput; reflexivity].
Defined.

Lemma ring_matches_registry_witness :
  exists c,
    circle Fixture.router1 = Some c
    /\ dom (members c) = dom (availableStorages Fixture.router1)
    /\ (forall id key, locate Fixture.fnv1 Fixture.router1 id = Ok key ->
          is_Some (availableStorages Fixture.router1 !! key))
    /\ (forall w1 object key,
          (Fixture.Put Fixture.router1 w1 object).1 <> Err (putNodeUnavailable key))
    /\ (forall w1 id key, Fixture.Get Fixture.router1 w1 id <> Err (getNodeUnavailable key)).
Proof.
  apply (ring_matches_registry Fixture.fnv1 Fixture.anyEndpoint Fixture.anyBucket
           Fixture.nonEmptyName Fixture.router0 Fixture.world).
  vm_compute. reflexivity.
Defined.

Lemma Get_not_found_by_error_text_witness :
  MinioStorage_Get Fixture.anyBucket Fixture.nonEmptyName Fixture.worldProxyError
    Fixture.adapter1 "object-1" = Ok None.
Proof.
  apply (Get_not_found_by_error_text Fixture.anyBucket Fixture.nonEmptyName
           Fixture.worldProxyError Fixture.adapter1 "object-1"
           "502 Bad Gateway: The specified key does not exist.").
  - vm_compute. reflexivity.
  - right. eexists. split; vm_compute; reflexivity.
Defined.

(** The failing inputs of C4, C5 and C6, run. *)

Example main_serves_without_nodes :
  (main Fixture.fnv1 Fixture.anyEndpoint Fixture.anyBucket ∅ (Some Fixture.dockerDown)
     Fixture.world).1
  = Ok {| listenAddr := ":3000";
          served := NewDistributedStorage (Some Fixture.dockerDown) "default";
          initResult := Some "retrieve storage nodes: unable to list containers: Cannot connect to the Docker daemon" |}.
Proof. reflexivity. Qed.

Example Get_on_empty_ring :
  Fixture.Get (Fixture.Init Fixture.routerEmpty Fixture.world).1.2 Fixture.world "a"
  = Panic nilDeref.
Proof. vm_compute. reflexivity. Qed.

Example adapter_Put_nil :
  MinioStorage_Put Fixture.anyBucket Fixture.nonEmptyName Fixture.world Fixture.adapter1 None
  = (Panic nilDeref, Fixture.world).
Proof. reflexivity. Qed.

(** * Further properties of the package *)

(** ** Strings: separators and substrings *)

Lemma lacks_String (c x : ascii) (s : string) :
  lacks c (String x s) = negb (Ascii.eqb x c) && lacks c s.
Proof. reflexivity. Qed.

(** Two texts cut at the first occurrence of a separator. *)
Lemma append_separator_inj (c : ascii) (a a' b b' : string) :
  lacks c a = true -> lacks c a' = true ->
  a +:+ String c b = a' +:+ String c b' -> a = a' /\ b = b'.
Proof.
  revert a'. induction a as [| x a IH]; intros [| y a'] Ha Ha'; push_literal.
  - now intros [= ->].
  - intros [= -> _]. rewrite lacks_String, Ascii.eqb_refl in Ha'. discriminate.
  - intros [= -> _]. rewrite lacks_String, Ascii.eqb_refl in Ha. discriminate.
  - intros [= -> H]. rewrite lacks_String in Ha, Ha'.
    apply andb_true_iff in Ha as [_ Ha]. apply andb_true_iff in Ha' as [_ Ha'].
    destruct (IH a' Ha Ha' H) as [-> ->]. now split.
Qed.

Lemma prefix_iff (p s : string) :
  String.prefix p s = true <-> exists post, s = p +:+ post.
Proof.
  revert s. induction p as [| a p IH]; intros s; push_literal.
  - split; [intros _; now exists s | intros _; now destruct s].
  - destruct s as [| b s]; cbn.
    + split; [discriminate | intros [post H]; discriminate].
    + destruct (Ascii.ascii_dec a b) as [-> | Hne].
      * rewrite IH. split; intros [post H]; exists post; [now rewrite H | now injection H].
      * split; [discriminate | intros [post [= H _]]; congruence].
Qed.

Lemma Contains_iff (s sub : string) :
  Contains s sub = true <-> exists pre post, s = pre +:+ sub +:+ post.
Proof.
  induction s as [| x s IH]; cbn [Contains]; rewrite orb_true_iff, prefix_iff.
  - split.
    + intros [[post H] | H]; [| discriminate]. now exists "", post.
    + intros ([| y pre] & post & H); [left; now exists post | discriminate].
  - rewrite IH. split.
    + intros [[post H] | (pre & post & H)]; [now exists "", post |].
      exists (String x pre), post. push_literal. now rewrite H.
    + intros ([| y pre] & post & H); [left; now exists post |].
      right. rewrite append_String in H. injection H as _ H. now exists pre, post.
Qed.

Lemma Split_lacks (s : string) (sep : ascii) :
  lacks sep s = true -> Split s sep = [s].
Proof.
  induction s as [| x s IH]; [reflexivity |].
  rewrite lacks_String. intros [Hx Hs]%andb_true_iff. cbn [Split].
  apply negb_true_iff in Hx. rewrite Hx. now rewrite (IH Hs).
Qed.

Lemma Split_separator (k rest : string) (sep : ascii) :
  lacks sep k = true -> Split (k +:+ String sep rest) sep = k :: Split rest sep.
Proof.
  induction k as [| x k IH]; push_literal.
  - intros _. cbn [Split]. now rewrite Ascii.eqb_refl.
  - rewrite lacks_String. intros [Hx Hk]%andb_true_iff. cbn [Split].
    apply negb_true_iff in Hx. rewrite Hx. now rewrite (IH Hk).
Qed.

(** ** Member tokens *)

(** X1. [Node.String]: when the ids contain no [#], two nodes with the same
    token have the same id and the same name. *)
Theorem Node_String_injective (n1 n2 : Node) :
  lacks "#" (nID n1) = true -> lacks "#" (nID n2) = true ->
  Node_String n1 = Node_String n2 ->
  nID n1 = nID n2 /\ nName n1 = nName n2.
Proof.
  unfold Node_String. push_literal. intros H1 H2 H.
  exact (append_separator_inj _ _ _ _ _ H1 H2 H).
Qed.

Lemma Node_String_injective_witness :
  nID (mkNode "c1" "/n#1" "10.0.0.1:9000" "a" "b") = nID (mkNode "c1" "/n#1" "10.0.0.7:9000" "c" "d")
  /\ nName (mkNode "c1" "/n#1" "10.0.0.1:9000" "a" "b")
     = nName (mkNode "c1" "/n#1" "10.0.0.7:9000" "c" "d").
Proof.
  apply (Node_String_injective (mkNode "c1" "/n#1" "10.0.0.1:9000" "a" "b")
           (mkNode "c1" "/n#1" "10.0.0.7:9000" "c" "d")); reflexivity.
Defined.

(** With a [#] in an id, different nodes can share a token. *)
Example Node_String_collision :
  Node_String (mkNode "a#b" "c" "" "" "") = Node_String (mkNode "a" "b#c" "" "" "").
Proof. reflexivity. Qed.

(** ** Recognising a missing key *)

(** X2. [keyDoesNotExist] holds exactly for the error texts that have the
    phrase as a substring; so a text that is recognised stays recognised
    when it is wrapped in a prefix and a suffix. *)
Theorem keyDoesNotExist_substring (err : string) :
  (keyDoesNotExist err = true
   <-> exists pre post, err = pre +:+ "The specified key does not exist." +:+ post)
  /\ (forall pfx sfx, keyDoesNotExist err = true ->
        keyDoesNotExist (pfx +:+ err +:+ sfx) = true).
Proof.
  unfold keyDoesNotExist, MinioKeyNotExistErrString. split; [apply Contains_iff |].
  intros pfx sfx. rewrite !Contains_iff. intros (pre & post & ->).
  exists (pfx +:+ pre), (post +:+ sfx). now rewrite !append_assoc.
Qed.

(** ** The environment of a container *)

Lemma parseEnv_snoc (envs : list string) (env : string) :
  parseEnv (envs ++ [env])
  = match Split env "="%char with
    | k :: v :: _ => <[k := v]> (parseEnv envs)
    | _ => parseEnv envs
    end.
Proof. unfold parseEnv. now rewrite foldl_app. Qed.

(** X3. The environment map of lines 224-230.  The last entry [k=v] decides
    the value of [k]; of an entry [k=v=rest] only [v] is kept; an entry
    without [=] changes nothing; and an entry for [k] leaves every other
    key as it was. *)
Theorem parseEnv_last_entry (envs : list string) (k v : string) :
  lacks "=" k = true -> lacks "=" v = true ->
  parseEnv (envs ++ [k +:+ "=" +:+ v]) !! k = Some v
  /\ (forall rest, parseEnv (envs ++ [k +:+ "=" +:+ v +:+ "=" +:+ rest]) !! k = Some v)
  /\ (forall env, lacks "=" env = true -> parseEnv (envs ++ [env]) = parseEnv envs)
  /\ (forall k', k' <> k ->
        parseEnv (envs ++ [k +:+ "=" +:+ v]) !! k' = parseEnv envs !! k').
Proof.
  intros Hk Hv.
  assert (H1 : Split (k +:+ "=" +:+ v) "="%char = [k; v]).
  { push_literal. now rewrite (Split_separator _ _ _ Hk), (Split_lacks _ _ Hv). }
  repeat split.
  - rewrite parseEnv_snoc, H1. apply lookup_insert_eq.
  - intros rest. rewrite parseEnv_snoc. push_literal.
    rewrite (Split_separator _ _ _ Hk), (Split_separator _ _ _ Hv).
    apply lookup_insert_eq.
  - intros env He. now rewrite parseEnv_snoc, (Split_lacks _ _ He).
  - intros k' Hne. rewrite parseEnv_snoc, H1. now apply lookup_insert_ne.
Qed.

Lemma parseEnv_last_entry_witness :
  parseEnv (["MINIO_SECRET_KEY=old"] ++ ["MINIO_SECRET_KEY" +:+ "=" +:+ "tree"]) !! "MINIO_SECRET_KEY"
  = Some "tree"
  /\ (forall rest,
        parseEnv (["MINIO_SECRET_KEY=old"]
                  ++ ["MINIO_SECRET_KEY" +:+ "=" +:+ "tree" +:+ "=" +:+ rest])
        !! "MINIO_SECRET_KEY" = Some "tree").
Proof.
  destruct (parseEnv_last_entry ["MINIO_SECRET_KEY=old"] "MINIO_SECRET_KEY" "tree"
              eq_refl eq_refl) as (H1 & H2 & _).
  split; [exact H1 | exact H2].
Defined.

(** A secret key that contains [=] is cut at it. *)
Example secret_with_equals_sign :
  nSecretKey (nodeOf (Fixture.storageContainer "c1" "/amazin-object-storage-node-1" "10.0.0.1")
                ["MINIO_ACCESS_KEY=ring"; "MINIO_SECRET_KEY=tree=potato"])
  = "tree".
Proof. reflexivity. Qed.

(** ** Node discovery: what is returned *)

Lemma discoverLoop_exit (inspect : string -> string + list string) (container : Container)
    (rest : list Container) (acc : list Node) :
  candidate container = true -> addressed container = false ->
  discoverLoop inspect (container :: rest) acc = Exit 1.
Proof.
  unfold candidate, addressed. cbn [discoverLoop].
  destruct (String.eqb (cID container) ""); [discriminate |].
  destruct (bool_decide (is_Some (cNetworkSettings container))); [| discriminate].
  cbn. intros ->. cbn.
  destruct (String.eqb (resolveAddress container) ""); [reflexivity | discriminate].
Qed.

Lemma discoverLoop_sound (inspect : string -> string + list string)
    (containers : list Container) :
  forall acc nodes,
    discoverLoop inspect containers acc = Ok nodes ->
    forall n, In n nodes ->
      In n acc
      \/ exists c env,
           In c containers /\ candidate c = true /\ addressed c = true
           /\ inspect (cID c) = inr env /\ n = nodeOf c env.
Proof.
  induction containers as [| c rest IH]; intros acc nodes H n Hn.
  - cbn in H. injection H as <-. now left.
  - destruct (candidate c) eqn:Hc.
    + destruct (addressed c) eqn:Ha.
      * rewrite (discoverLoop_candidate _ _ _ _ Hc Ha) in H.
        destruct (inspect (cID c)) as [e | env] eqn:Hi; [discriminate |].
        destruct (IH _ _ H n Hn) as [Hacc | (c' & env' & Hin & Hrest)].
        -- apply in_app_or in Hacc as [Hacc | [<- | []]]; [now left |].
           right. exists c, env. repeat split; try assumption. now left.
        -- right. exists c', env'. split; [now right | assumption].
      * rewrite (discoverLoop_exit _ _ _ _ Hc Ha) in H. discriminate.
    + rewrite (discoverLoop_skip _ _ _ _ Hc) in H.
      destruct (IH _ _ H n Hn) as [Hacc | (c' & env' & Hin & Hrest)]; [now left |].
      right. exists c', env'. split; [now right | assumption].
Qed.

(** X4. Whatever the listing, every node that [getAvailableStorageNodes]
    returns comes from a listed container that was inspected; it has an id,
    a name that contains the pattern, and the endpoint [address:9000] for an
    address that is not empty. *)
Theorem discovered_nodes_wellformed (cli : DockerClient) (nodes : list Node) :
  getAvailableStorageNodes (Some cli) = Ok nodes ->
  exists containers,
    ContainerList cli = inr containers
    /\ forall n, In n nodes ->
         nID n <> ""
         /\ Contains (nName n) ContainerNamePattern = true
         /\ (exists addr, addr <> "" /\ nEndpoint n = addr +:+ ":9000")
         /\ exists c env,
              In c containers /\ ContainerInspect cli (cID c) = inr env /\ n = nodeOf c env.
Proof.
  unfold getAvailableStorageNodes.
  destruct (ContainerList cli) as [e | containers]; [discriminate |].
  intros H. exists containers. split; [reflexivity |]. intros n Hn.
  destruct (discoverLoop_sound _ _ _ _ H n Hn) as [[] | (c & env & Hin & Hc & Ha & Hi & ->)].
  unfold candidate in Hc. unfold addressed in Ha.
  apply andb_true_iff in Hc as [[Hid _]%andb_true_iff Hname].
  apply negb_true_iff in Hid, Ha. apply String.eqb_neq in Hid, Ha.
  repeat split; try assumption.
  - exists (resolveAddress c). split; [assumption | reflexivity].
  - exists c, env. now repeat split.
Qed.

Lemma discovered_nodes_wellformed_witness :
  exists containers,
    ContainerList Fixture.docker = inr containers
    /\ forall n,
         In n [ mkNode "c1" "/amazin-object-storage-node-1" "10.0.0.1:9000" "ring" "treepotato";
                mkNode "c2" "/amazin-object-storage-node-2" "10.0.0.2:9000" "ring" "treepotato";
                mkNode "c3" "/amazin-object-storage-node-3" "10.0.0.3:9000" "ring" "treepotato" ] ->
         nID n <> ""
         /\ Contains (nName n) ContainerNamePattern = true
         /\ (exists addr, addr <> "" /\ nEndpoint n = addr +:+ ":9000")
         /\ exists c env,
              In c containers /\ ContainerInspect Fixture.docker (cID c) = inr env
              /\ n = nodeOf c env.
Proof.
  apply (discovered_nodes_wellformed Fixture.docker). reflexivity.
Defined.

Section Serving.

Variable xxhash : list byte -> Z.
Variable endpointError : string -> option string.
Variable bucketNameError : string -> option string.
Variable objectNameError : string -> option string.

Local Abbreviation AInit := (MinioStorage_Init bucketNameError).
Local Abbreviation AGet := (MinioStorage_Get bucketNameError objectNameError).
Local Abbreviation APut := (MinioStorage_Put bucketNameError objectNameError).
Local Abbreviation RInit := (DistributedStorage_Init xxhash endpointError bucketNameError).
Local Abbreviation RPut := (DistributedStorage_Put xxhash bucketNameError objectNameError).
Local Abbreviation RGet := (DistributedStorage_Get xxhash bucketNameError objectNameError).
Local Abbreviation ready := (routerReady bucketNameError).

(** ** The servers under writes *)

(** A server that answers has received the request. *)
Lemma received_answered (w : gmap string server) (c : MinioClient)
    (buckets : gmap string (gmap string stored)) :
  connect w c = inr buckets -> received w c = Some buckets.
Proof using Type.
  unfold connect, received.
  destruct (w !! mcEndpoint c) as [[e | ak sk b0 | e ak sk b0] |]; try discriminate.
  destruct (String.eqb ak (mcAccessKey c) && String.eqb sk (mcSecretKey c)); [| discriminate].
  now intros [= ->].
Qed.

(** What any client sees after the server has carried out a write of
    client [c]. *)
Lemma connect_after_write (w : gmap string server) (c c' : MinioClient)
    (buckets bs : gmap string (gmap string stored)) :
  received w c = Some buckets ->
  connect (setBuckets w c bs) c'
  = match connect w c' with
    | inl e => inl e
    | inr old => if decide (mcEndpoint c = mcEndpoint c') then inr bs else inr old
    end.
Proof using Type.
  assert (Hother : forall (v : server), mcEndpoint c <> mcEndpoint c' ->
            connect (<[mcEndpoint c := v]> w) c'
            = match connect w c' with
              | inl e => inl e
              | inr old => if decide (mcEndpoint c = mcEndpoint c') then inr bs else inr old
              end).
  { intros v Hne. unfold connect. rewrite lookup_insert_ne by assumption.
    destruct (w !! mcEndpoint c') as [[e | ak' sk' b1 | e ak' sk' b1] |]; try reflexivity.
    destruct (String.eqb ak' (mcAccessKey c') && String.eqb sk' (mcSecretKey c'));
      [| reflexivity].
    now destruct (decide (mcEndpoint c = mcEndpoint c')). }
  unfold received, setBuckets.
  destruct (w !! mcEndpoint c) as [[e | ak sk b0 | e ak sk b0] |] eqn:Hw; try discriminate.
  - destruct (String.eqb ak (mcAccessKey c) && String.eqb sk (mcSecretKey c));
      [| discriminate].
    intros _. destruct (decide (mcEndpoint c = mcEndpoint c')) as [Heq | Hne];
      [| now apply Hother].
    unfold connect. rewrite <- Heq, lookup_insert_eq, Hw.
    destruct (String.eqb ak (mcAccessKey c') && String.eqb sk (mcSecretKey c'));
      [| reflexivity].
    now destruct (decide (mcEndpoint c = mcEndpoint c)).
  - destruct (String.eqb ak (mcAccessKey c) && String.eqb sk (mcSecretKey c));
      [| discriminate].
    intros _. destruct (decide (mcEndpoint c = mcEndpoint c')) as [Heq | Hne];
      [| now apply Hother].
    unfold connect. now rewrite <- Heq, lookup_insert_eq, Hw.
Qed.

(** A client that is answered sees the buckets that the server holds for
    every client of its endpoint. *)
Lemma connect_same_server (w : gmap string server) (c c' : MinioClient)
    (b b' : gmap string (gmap string stored)) :
  mcEndpoint c = mcEndpoint c' -> received w c = Some b -> connect w c' = inr b' -> b = b'.
Proof using Type.
  unfold connect, received. intros <-.
  destruct (w !! mcEndpoint c) as [[e | ak sk b0 | e ak sk b0] |];
    [discriminate | | intros _ H; discriminate H | discriminate].
  destruct (String.eqb ak (mcAccessKey c) && String.eqb sk (mcSecretKey c)); [| discriminate].
  destruct (String.eqb ak (mcAccessKey c') && String.eqb sk (mcSecretKey c')); [| discriminate].
  congruence.
Qed.

(** Writing one object does not change what is read under another name. *)
Lemma fetch_after_put (w : gmap string server) (c : MinioClient) (o' : minioObject)
    (buckets : gmap string (gmap string stored)) (objects : gmap string stored)
    (b name : string) (v : stored) :
  received w c = Some buckets -> buckets !! b = Some objects -> oName o' <> name ->
  fetch (setBuckets w c (<[b := <[name := v]> objects]> buckets)) o' = fetch w o'.
Proof using Type.
  intros Hc Hb Hne. unfold fetch. rewrite (connect_after_write _ _ _ _ _ Hc).
  destruct (connect w (oClient o')) as [e | old] eqn:Hc'; [reflexivity |].
  destruct (decide (mcEndpoint c = mcEndpoint (oClient o'))) as [Heq | _]; [| reflexivity].
  rewrite <- (connect_same_server _ _ _ _ _ Heq Hc Hc').
  destruct (decide (b = oBucket o')) as [<- | Hnb].
  - rewrite lookup_insert_eq, Hb. now rewrite lookup_insert_ne by congruence.
  - now rewrite lookup_insert_ne by assumption.
Qed.

(** Creating a bucket that was missing keeps every stored object. *)
Lemma fetch_after_makeBucket (w : gmap string server) (c : MinioClient) (o : minioObject)
    (buckets : gmap string (gmap string stored)) (b : string) (v : stored) :
  received w c = Some buckets -> buckets !! b = None ->
  fetch w o = inr v -> fetch (setBuckets w c (<[b := ∅]> buckets)) o = inr v.
Proof using Type.
  intros Hc Hb. unfold fetch. rewrite (connect_after_write _ _ _ _ _ Hc).
  destruct (connect w (oClient o)) as [e | old] eqn:Hc'; [discriminate |].
  destruct (decide (mcEndpoint c = mcEndpoint (oClient o))) as [Heq | _];
    [| intros H; exact H].
  rewrite <- (connect_same_server _ _ _ _ _ Heq Hc Hc').
  destruct (decide (b = oBucket o)) as [<- | Hnb].
  - now rewrite Hb.
  - now rewrite lookup_insert_ne by assumption.
Qed.

(** A write that keeps the buckets of the server keeps every adapter
    ready. *)
Lemma bucketReady_setBuckets (w : gmap string server) (c : MinioClient) (st : MinioStorage)
    (buckets bs : gmap string (gmap string stored)) :
  received w c = Some buckets ->
  (forall b, is_Some (buckets !! b) -> is_Some (bs !! b)) ->
  bucketReady w st -> bucketReady (setBuckets w c bs) st.
Proof using Type.
  intros Hc Hmono (old & Hst & Hb). unfold bucketReady.
  rewrite (connect_after_write _ _ _ _ _ Hc), Hst.
  destruct (decide (mcEndpoint c = mcEndpoint (msClient st))) as [Heq | _].
  - exists bs. split; [reflexivity |]. apply Hmono.
    now rewrite (connect_same_server _ _ _ _ _ Heq Hc Hst).
  - exists old. now split.
Qed.

(** ** The adapter: [Init] *)

Lemma MinioStorage_Init_cases (w : gmap string server) (st : MinioStorage) :
  (exists e, AInit w st = (Err e, w))
  \/ (AInit w st = (Ok tt, w) /\ bucketNameError (msBucketName st) = None /\ bucketReady w st)
  \/ (exists buckets,
        bucketNameError (msBucketName st) = None
        /\ connect w (msClient st) = inr buckets /\ buckets !! msBucketName st = None
        /\ AInit w st
           = (Ok tt, setBuckets w (msClient st) (<[msBucketName st := ∅]> buckets))).
Proof using bucketNameError.
  unfold MinioStorage_Init, client_BucketExists, client_MakeBucket.
  destruct (bucketNameError (msBucketName st)) eqn:Hbn; [left; eauto |].
  destruct (connect w (msClient st)) as [e | buckets] eqn:Hc; [left; eauto |].
  case_bool_decide as Hb.
  - right; left. repeat split. exists buckets. now split.
  - destruct (buckets !! msBucketName st) eqn:Hl; [exfalso; apply Hb; eauto |].
    right; right. exists buckets. now repeat split.
Qed.

(** X5. [MinioStorage.Init]: when it succeeds, the server answers the
    adapter and holds its bucket, every object stored before is still
    there, and a second [Init] succeeds without changing anything. *)
Theorem MinioStorage_Init_ensures_bucket (w : gmap string server) (st : MinioStorage) :
  (AInit w st).1 = Ok tt ->
  bucketReady (AInit w st).2 st
  /\ AInit (AInit w st).2 st = (Ok tt, (AInit w st).2)
  /\ forall o v, fetch w o = inr v -> fetch (AInit w st).2 o = inr v.
Proof using bucketNameError.
  destruct (MinioStorage_Init_cases w st)
    as [[e H] | [(H & Hbn & Hr) | (buckets & Hbn & Hc & Hb & H)]]; rewrite H; cbn [fst snd].
  - discriminate.
  - intros _. now repeat split.
  - intros _.
    assert (Hr : bucketReady (setBuckets w (msClient st) (<[msBucketName st := ∅]> buckets)) st).
    { exists (<[msBucketName st := ∅]> buckets).
      split; [now apply (connect_setBuckets _ _ buckets) | rewrite lookup_insert_eq; eauto]. }
    repeat split; [exact Hr | |].
    + destruct Hr as (bs & Hc' & Hb').
      unfold MinioStorage_Init, client_BucketExists. rewrite Hbn, Hc'.
      now rewrite bool_decide_eq_true_2.
    + intros o v. apply fetch_after_makeBucket; [now apply received_answered | assumption].
Qed.

Lemma MinioStorage_Init_keeps_ready (w : gmap string server) (st st' : MinioStorage) :
  bucketReady w st' -> bucketReady (AInit w st).2 st'.
Proof using bucketNameError.
  intros Hr.
  destruct (MinioStorage_Init_cases w st)
    as [[e H] | [(H & _) | (buckets & _ & Hc & Hb & H)]]; rewrite H; cbn [snd];
    try assumption.
  apply (bucketReady_setBuckets _ _ _ buckets);
    [now apply received_answered | | assumption].
  intros b [x Hx]. destruct (decide (msBucketName st = b)) as [<- | Hne]; [congruence |].
  rewrite lookup_insert_ne by assumption. eauto.
Qed.

(** ** The adapter: [Put] and [Get] *)

(** What [Put] leaves on the servers: nothing new, or the object under its
    id in the bucket of the adapter, on a server that has received the
    request. *)
Lemma MinioStorage_Put_cases (w : gmap string server) (st : MinioStorage)
    (object : option Object) :
  (APut w st object).2 = w
  \/ (exists o buckets objects,
        object = Some o
        /\ received w (msClient st) = Some buckets
        /\ buckets !! msBucketName st = Some objects
        /\ (APut w st object).2
           = setBuckets w (msClient st)
               (<[msBucketName st
                  := <[ID o := mkStored (sentContentType (ContentType o)) (Content o)]>
                       objects]> buckets)).
Proof using bucketNameError objectNameError.
  unfold MinioStorage_Put, client_PutObject. cbv zeta.
  destruct object as [o |]; [| now left].
  destruct (bucketNameError (msBucketName st)) eqn:Hbn; [now left |].
  destruct (objectNameError (ID o)) eqn:Hon; [now left |].
  destruct (connect w (msClient st)) as [e | buckets] eqn:Hc.
  - destruct (received w (msClient st)) as [buckets |] eqn:Hr; [| now left].
    destruct (buckets !! msBucketName st) as [objects |] eqn:Hb; [| now left].
    right. exists o, buckets, objects. now repeat split.
  - destruct (buckets !! msBucketName st) as [objects |] eqn:Hb; [| now left].
    right. exists o, buckets, objects. apply received_answered in Hc. now repeat split.
Qed.

(** [Put] succeeds on an adapter that is ready, for a name the client
    accepts. *)
Lemma MinioStorage_Put_succeeds (w : gmap string server) (st : MinioStorage) (o : Object) :
  bucketNameError (msBucketName st) = None -> objectNameError (ID o) = None ->
  bucketReady w st -> (APut w st (Some o)).1 = Ok tt.
Proof using bucketNameError objectNameError.
  intros Hbn Hon (buckets & Hc & [objects Hb]).
  unfold MinioStorage_Put, client_PutObject. cbv zeta. now rewrite Hbn, Hon, Hc, Hb.
Qed.

Lemma MinioStorage_Put_keeps_ready (w : gmap string server) (st st' : MinioStorage)
    (object : option Object) :
  bucketReady w st' -> bucketReady (APut w st object).2 st'.
Proof using bucketNameError objectNameError.
  intros Hr.
  destruct (MinioStorage_Put_cases w st object)
    as [-> | (o & buckets & objects & _ & Hc & Hb & ->)]; [assumption |].
  apply (bucketReady_setBuckets _ _ _ buckets); try assumption.
  intros b [x Hx]. destruct (decide (msBucketName st = b)) as [<- | Hne].
  - rewrite lookup_insert_eq. eauto.
  - rewrite lookup_insert_ne by assumption. eauto.
Qed.

(** A [Put] on one adapter does not change what any adapter returns for
    another id. *)
Lemma MinioStorage_Put_frame (w : gmap string server) (st st' : MinioStorage)
    (o : Object) (id' : string) :
  id' <> ID o -> AGet (APut w st (Some o)).2 st' id' = AGet w st' id'.
Proof using bucketNameError objectNameError.
  intros Hne.
  destruct (MinioStorage_Put_cases w st (Some o))
    as [-> | (o' & buckets & objects & [= <-] & Hc & Hb & ->)]; [reflexivity |].
  unfold MinioStorage_Get.
  destruct (client_GetObject _ _ _ _ id') as [e | mObj] eqn:Hopen; [reflexivity |].
  assert (Hname : oName mObj = id').
  { unfold client_GetObject in Hopen.
    destruct (bucketNameError (msBucketName st')); [discriminate |].
    destruct (objectNameError id'); [discriminate |]. now injection Hopen as <-. }
  unfold minioObject_Stat, minioObject_ReadAll.
  now rewrite (fetch_after_put _ _ mObj _ _ _ _ _ Hc Hb) by congruence.
Qed.

Lemma MinioStorage_Get_id (w : gmap string server) (st : MinioStorage) (id : string)
    (o : Object) :
  AGet w st id = Ok (Some o) -> ID o = id.
Proof using bucketNameError objectNameError.
  unfold MinioStorage_Get, handleKeyDoesNotExistError.
  destruct (client_GetObject _ _ _ _ id) as [e | mObj].
  - destruct (keyDoesNotExist e); discriminate.
  - destruct (minioObject_Stat w mObj) as [e | ct].
    + destruct (keyDoesNotExist e); discriminate.
    + destruct (minioObject_ReadAll w mObj); [discriminate |]. now intros [= <-].
Qed.

(** X6. The adapter on a server that answers it: for names the client
    accepts and an object with a plain content type (printable ASCII, not
    empty, no space at its ends), [Init] succeeds, then [Put] of the object
    succeeds, then [Get] of its id returns the object. *)
Theorem adapter_Init_Put_Get (w : gmap string server) (st : MinioStorage) (o : Object) :
  bucketNameError (msBucketName st) = None -> objectNameError (ID o) = None ->
  plainContentType (ContentType o) = true ->
  reach w (msClient st) = None ->
  (AInit w st).1 = Ok tt
  /\ (APut (AInit w st).2 st (Some o)).1 = Ok tt
  /\ AGet (APut (AInit w st).2 st (Some o)).2 st (ID o) = Ok (Some o).
Proof using bucketNameError objectNameError.
  intros Hbn Hon Hplain Hreach.
  destruct (plainContentType_kept _ Hplain) as [Hne Htrim].
  assert (Hinit : (AInit w st).1 = Ok tt).
  { pose proof (MinioStorage_Init_outcome bucketNameError w st) as Hout.
    destruct (AInit w st).1 as [[] | e | m | k]; [reflexivity | | contradiction..].
    destruct Hout; congruence. }
  split; [assumption |].
  assert (Hr : bucketReady (AInit w st).2 st).
  { destruct (MinioStorage_Init_cases w st)
      as [[e H] | [(H & _ & Hr) | (buckets & _ & Hc & Hb & H)]]; rewrite H in *; cbn [fst snd] in *;
      [discriminate | assumption |].
    exists (<[msBucketName st := ∅]> buckets).
    split; [now apply (connect_setBuckets _ _ buckets) | rewrite lookup_insert_eq; eauto]. }
  pose proof (MinioStorage_Put_succeeds _ _ _ Hbn Hon Hr) as Hput.
  split; [assumption |].
  rewrite (MinioStorage_Put_Get bucketNameError objectNameError (AInit w st).2
             (APut (AInit w st).2 st (Some o)).2 st o).
  - rewrite (contentType_kept _ Hne Htrim). now destruct o.
  - destruct (APut (AInit w st).2 st (Some o)) as [r w2]. cbn in Hput. now subst r.
Qed.

(** ** The hash ring: every partition gets an owner *)

Lemma distributeWithLoad_loop_insert (c : Consistent) (avg partID : Z) (remaining : nat) :
  forall (idx : nat) (parts parts' : gmap Z Node) (lds lds' : gmap string Z),
    distributeWithLoad_loop c avg partID remaining idx parts lds = Ok (parts', lds') ->
    exists m, parts' = <[partID := m]> parts.
Proof using Type.
  induction remaining as [| r IH]; intros idx parts parts' lds lds' H; cbn in H.
  - discriminate.
  - destruct (sortedSet c !! idx) as [i |]; [| discriminate].
    destruct (ring c !! i) as [member |]; [| discriminate].
    destruct (default 0 (lds !! Node_String member) + 1 <=? avg).
    + injection H as <- _. eauto.
    + eapply IH; eassumption.
Qed.

Lemma distributePartitions_allOwned (c c' : Consistent) :
  distributePartitions xxhash c = Ok c' -> allOwned c'.
Proof using xxhash.
  unfold distributePartitions.
  match goal with |- context [foldl ?f ?a ?l] => set (F := f); set (a0 := a) end.
  assert (Hfold : forall l acc parts lds,
             foldl F acc l = Ok (parts, lds) ->
             exists parts0 lds0,
               acc = Ok (parts0, lds0)
               /\ (forall p, is_Some (parts0 !! p) -> is_Some (parts !! p))
               /\ forall x, In x l -> is_Some (parts !! Z.of_nat x)).
  { induction l as [| x l IH]; intros acc parts lds H; cbn in H.
    - exists parts, lds. split; [assumption |]. split; [tauto | intros ? []].
    - destruct (IH _ _ _ H) as (p1 & l1 & Hstep & Hmono & Hl).
      subst F. cbn beta in Hstep.
      destruct acc as [[p0 l0] | | |]; cbn in Hstep; try discriminate.
      unfold distributeWithLoad in Hstep.
      apply distributeWithLoad_loop_insert in Hstep as [m ->].
      exists p0, l0. split; [reflexivity |]. split.
      + intros p Hp. apply Hmono. destruct (decide (Z.of_nat x = p)) as [-> | Hne].
        * rewrite lookup_insert_eq. eauto.
        * now rewrite lookup_insert_ne.
      + intros y [<- | Hy]; [| now apply Hl].
        apply Hmono. rewrite lookup_insert_eq. eauto. }
  destruct (foldl F a0 _) as [[parts lds] | | |] eqn:Hrun; cbn; try discriminate.
  intros [= <-]. intros p Hp. cbn in *.
  destruct (Hfold _ _ _ _ Hrun) as (_ & _ & _ & _ & Hall).
  rewrite <- (Z2Nat.id p) by lia. apply Hall. apply in_seq. lia.
Qed.

Lemma consistent_Add_allOwned (c c' : Consistent) (member : Node) :
  members c = ∅ \/ allOwned c -> consistent_Add xxhash c member = Ok c' -> allOwned c'.
Proof using xxhash.
  intros Hinv. unfold consistent_Add. case_bool_decide as Hmem.
  - intros [= <-]. destruct Hinv as [He | Ho]; [| assumption].
    rewrite He, lookup_empty in Hmem. now destruct Hmem.
  - apply distributePartitions_allOwned.
Qed.

Lemma addAll_allOwned (nodes : list Node) :
  forall c c', members c = ∅ \/ allOwned c -> addAll xxhash c nodes = Ok c' ->
    members c' = ∅ \/ allOwned c'.
Proof using xxhash.
  induction nodes as [| node rest IH]; intros c c' Hinv H; cbn in H.
  - now injection H as <-.
  - destruct (consistent_Add xxhash c node) as [c1 | | |] eqn:Hadd; cbn in H; try discriminate.
    apply (IH c1); [| assumption]. right. eapply consistent_Add_allOwned; eassumption.
Qed.

Lemma initHashCircle_allOwned (nodes : list Node) (c : Consistent) :
  initHashCircle xxhash nodes = Ok c -> members c = ∅ \/ allOwned c.
Proof using xxhash.
  unfold initHashCircle.
  destruct (consistent_New_nil xxhash
              {| PartitionCount := Z.of_nat (length nodes); ReplicationFactor := 0;
                 Load := (5 # 4)%Q |}) as (c0 & -> & _ & Hm0 & _).
  cbn [bind]. apply addAll_allOwned. now left.
Qed.

(** On a ring whose partitions all have an owner, [LocateKey] finds a
    member. *)
Lemma LocateKey_owned (c : Consistent) (key : list byte) :
  ring_wf c -> allOwned c -> 0 < partitionCount c ->
  exists m, LocateKey xxhash c key = Ok (Some m) /\ Node_String m ∈ dom (members c).
Proof using xxhash.
  intros Hwf Hall Hpc. unfold LocateKey, FindPartitionID.
  destruct (partitionCount c =? 0) eqn:Hz; [apply Z.eqb_eq in Hz; lia |]. cbn.
  destruct (Hall (hasher_Sum64 xxhash key mod partitionCount c)) as [m Hm].
  { apply Z.mod_pos_bound. lia. }
  exists m. rewrite Hm. split; [reflexivity |].
  destruct Hwf as (_ & Hparts & _). apply elem_of_dom. eapply Hparts; eassumption.
Qed.

(** The partition count is positive from [consistent.New] on. *)
Lemma consistent_New_positive (cfg : Config) :
  0 <= PartitionCount cfg ->
  exists c, consistent_New xxhash None cfg = Ok c /\ 0 < partitionCount c.
Proof using xxhash.
  unfold consistent_New. destruct cfg as [pc rf ld]. cbn. intros Hpc.
  destruct (pc =? 0) eqn:Hz; cbn; destruct (rf =? 0); cbn; destruct (Qeq_bool ld 0); cbn;
    (eexists; split; [reflexivity |]; cbn; try reflexivity; apply Z.eqb_neq in Hz; lia).
Qed.

Lemma addAll_partitionCount (nodes : list Node) :
  forall c c', addAll xxhash c nodes = Ok c' -> partitionCount c' = partitionCount c.
Proof using xxhash.
  induction nodes as [| node rest IH]; intros c c' H; cbn in H.
  - now injection H as <-.
  - destruct (consistent_Add xxhash c node) as [c1 | | |] eqn:Hadd; cbn in H; try discriminate.
    rewrite (IH _ _ H).
    unfold consistent_Add in Hadd. case_bool_decide; [now injection Hadd as <- |].
    apply distributePartitions_inv in Hadd as (_ & _ & -> & _).
    exact (proj1 (proj2 (consistent_add_inv xxhash c node))).
Qed.

Lemma initHashCircle_partitionCount (nodes : list Node) (c : Consistent) :
  initHashCircle xxhash nodes = Ok c -> 0 < partitionCount c.
Proof using xxhash.
  unfold initHashCircle.
  destruct (consistent_New_positive
              {| PartitionCount := Z.of_nat (length nodes); ReplicationFactor := 0;
                 Load := (5 # 4)%Q |}) as (c0 & -> & Hpos); [cbn; lia |].
  cbn [bind]. intros H. now rewrite (addAll_partitionCount _ _ _ H).
Qed.

(** ** The router: the registry that [Init] builds *)

Lemma initStorageNode_ok (s : DistributedStorage) (w w' : gmap string server) (node : Node)
    (storage : MinioStorage) :
  initStorageNode endpointError bucketNameError s w node = (Ok storage, w') ->
  storage = adapterOf (bucketName s) node
  /\ bucketNameError (bucketName s) = None
  /\ bucketReady w' storage
  /\ forall st, bucketReady w st -> bucketReady w' st.
Proof using endpointError bucketNameError.
  unfold initStorageNode, NewMinioStorage.
  cbn [cfgEndpoint cfgAccessKey cfgSecretKey cfgBucketName].
  destruct (endpointError (nEndpoint node)); [discriminate |].
  change (mkMinioStorage _ _ _) with (adapterOf (bucketName s) node).
  pose proof (MinioStorage_Init_keeps_ready w (adapterOf (bucketName s) node)) as Hkeep.
  pose proof (MinioStorage_Init_outcome bucketNameError w (adapterOf (bucketName s) node)) as Hout.
  destruct (MinioStorage_Init_cases w (adapterOf (bucketName s) node))
    as [[e H] | [(H & Hbn & Hr) | (buckets & Hbn & Hc & Hb & H)]];
    rewrite H in *; cbn [fst snd] in *; [discriminate | |].
  - intros [= <- <-]. now repeat split.
  - intros [= <- <-]. repeat split; try assumption.
    exists (<[bucketName s := ∅]> buckets).
    split; [now apply (connect_setBuckets _ _ buckets) | rewrite lookup_insert_eq; eauto].
Qed.

Lemma initStorages_loop_registry (nodes : list Node) :
  forall s w s' w',
    initStorages_loop endpointError bucketNameError s w nodes = (Ok tt, s', w') ->
    (forall key st, availableStorages s' !! key = Some st ->
       availableStorages s !! key = Some st
       \/ exists n, In n nodes /\ key = Node_String n /\ st = adapterOf (bucketName s) n
                    /\ bucketNameError (bucketName s) = None)
    /\ (forall st, bucketReady w st -> bucketReady w' st)
    /\ (forall n, In n nodes -> bucketReady w' (adapterOf (bucketName s) n)).
Proof using endpointError bucketNameError.
  induction nodes as [| node rest IH]; intros s w s' w' H; cbn in H.
  - injection H as <- <-. repeat split; [now left | tauto | intros ? []].
  - destruct (initStorageNode _ _ s w node) as [[storage | e | m | k] w1] eqn:Hn;
      try discriminate.
    apply initStorageNode_ok in Hn as (-> & Hbn & Hr & Hkeep).
    apply IH in H as (Hreg & Hkeep' & Hready). cbn [bucketName setStorages] in *.
    repeat split.
    + intros key st Hst. destruct (Hreg key st Hst) as [Hold | (n & Hin & Hrest)].
      * cbn in Hold. destruct (decide (Node_String node = key)) as [<- | Hne].
        -- rewrite lookup_insert_eq in Hold. injection Hold as <-.
           right. exists node. repeat split; [now left | assumption].
        -- rewrite lookup_insert_ne in Hold by assumption. now left.
      * right. exists n. split; [now right | assumption].
    + intros st Hst. apply Hkeep', Hkeep, Hst.
    + intros n [<- | Hin]; [apply Hkeep', Hr | now apply Hready].
Qed.

Lemma Init_ready_holds (s : DistributedStorage) (w : gmap string server) :
  (RInit s w).1.1 = Ok tt ->
  availableStorages (RInit s w).1.2 <> ∅ ->
  exists nodes,
    getAvailableStorageNodes (client s) = Ok nodes
    /\ ready (RInit s w).1.2 (RInit s w).2
    /\ (forall key st, availableStorages (RInit s w).1.2 !! key = Some st ->
          exists n, In n nodes /\ key = Node_String n /\ st = adapterOf (bucketName s) n)
    /\ (forall n, In n nodes -> is_Some (availableStorages (RInit s w).1.2 !! Node_String n)).
Proof using xxhash endpointError bucketNameError.
  destruct (RInit s w) as [[r s'] w'] eqn:Hinit. cbn [fst snd]. intros -> Hne.
  apply Init_ok_inv in Hinit as (nodes & s1 & c & Hnodes & Hst & Hc & ->).
  pose proof (initHashCircle_wf xxhash endpointError bucketNameError bucketNameError
                _ _ Hc) as [Hwf Hmem].
  pose proof (initHashCircle_allOwned _ _ Hc) as Hown.
  pose proof (initHashCircle_partitionCount _ _ Hc) as Hpc.
  unfold initStorages in Hst.
  pose proof (initStorages_loop_dom endpointError bucketNameError bucketNameError
                _ _ _ _ _ Hst) as Hdom.
  cbn in Hdom. rewrite dom_empty_L, union_empty_r_L in Hdom.
  apply initStorages_loop_registry in Hst as (Hreg & _ & Hready).
  cbn [bucketName setStorages availableStorages setCircle] in *.
  assert (Hreg' : forall key st, availableStorages s1 !! key = Some st ->
            exists n, In n nodes /\ key = Node_String n /\ st = adapterOf (bucketName s) n
                      /\ bucketNameError (bucketName s) = None).
  { intros key st H. destruct (Hreg key st H) as [Hold | Hnew]; [| exact Hnew].
    now rewrite lookup_empty in Hold. }
  exists nodes. split; [assumption |]. split; [| split].
  - exists c. split; [reflexivity |]. split; [assumption |]. split; [| split; [| split]].
    + destruct Hown as [He | Ho]; [| exact Ho].
      exfalso. apply Hne. apply dom_empty_iff_L. cbn. rewrite Hdom, <- Hmem, He.
      apply dom_empty_L.
    + assumption.
    + cbn. congruence.
    + intros key st H. destruct (Hreg' _ _ H) as (n & Hin & _ & -> & Hbn).
      split; [exact Hbn | now apply Hready].
  - intros key st H. destruct (Hreg' _ _ H) as (n & Hin & Hk & Hs & _). eauto.
  - intros n Hin. apply elem_of_dom. rewrite Hdom. unfold tokens.
    apply elem_of_list_to_set, list_elem_of_fmap. exists n. split; [reflexivity |].
    now apply list_elem_of_In.
Qed.

(** X7. A successful [Init] that registers at least one adapter leaves the
    router ready: every partition of the ring has an owner, the registry has
    an adapter for each discovered node and no other, every adapter is the
    one built for a discovered node with the router's bucket name, and the
    server behind each adapter answers and holds the bucket. *)
Theorem Init_makes_ready (s : DistributedStorage) (w : gmap string server) :
  (RInit s w).1.1 = Ok tt ->
  availableStorages (RInit s w).1.2 <> ∅ ->
  exists nodes,
    getAvailableStorageNodes (client s) = Ok nodes
    /\ ready (RInit s w).1.2 (RInit s w).2
    /\ (forall key st, availableStorages (RInit s w).1.2 !! key = Some st ->
          exists n, In n nodes /\ key = Node_String n /\ st = adapterOf (bucketName s) n)
    /\ (forall n, In n nodes -> is_Some (availableStorages (RInit s w).1.2 !! Node_String n)).
Proof using xxhash endpointError bucketNameError. exact (Init_ready_holds s w). Qed.

(** ** The router when it is ready *)

Lemma ready_locate (s : DistributedStorage) (w : gmap string server) (id : string) :
  ready s w ->
  exists key st,
    locate xxhash s id = Ok key /\ availableStorages s !! key = Some st
    /\ bucketNameError (msBucketName st) = None /\ bucketReady w st.
Proof using xxhash bucketNameError.
  intros (c & Hc & Hwf & Hown & Hpc & Hdom & Hreg).
  destruct (LocateKey_owned c (list_byte_of_string id) Hwf Hown Hpc) as (m & Hl & Hm).
  rewrite Hdom in Hm. apply elem_of_dom in Hm as [st Hst].
  exists (Node_String m), st. unfold locate. rewrite Hc, Hl. cbn.
  destruct (Hreg _ _ Hst). now repeat split.
Qed.

Lemma MinioStorage_Get_no_panic (w : gmap string server) (st : MinioStorage) (id : string) :
  match AGet w st id with
  | Ok _ | Err _ => True
  | _ => False
  end.
Proof using bucketNameError objectNameError.
  unfold MinioStorage_Get, handleKeyDoesNotExistError.
  destruct (client_GetObject _ _ _ _ id) as [e | mObj].
  - now destruct (keyDoesNotExist e).
  - destruct (minioObject_Stat w mObj) as [e | ct]; [now destruct (keyDoesNotExist e) |].
    now destruct (minioObject_ReadAll w mObj).
Qed.

Lemma ready_Put_Get_holds (s : DistributedStorage) (w : gmap string server) (o : Object) :
  ready s w -> String.eqb (ID o) "" = false -> objectNameError (ID o) = None ->
  plainContentType (ContentType o) = true ->
  (RPut s w (Some o)).1 = Ok tt
  /\ ready s (RPut s w (Some o)).2
  /\ RGet s (RPut s w (Some o)).2 (ID o) = Ok (Some o).
Proof using xxhash bucketNameError objectNameError.
  intros Hready Hid Hon Hplain.
  destruct (plainContentType_kept _ Hplain) as [Hne Htrim].
  destruct (ready_locate s w (ID o) Hready) as (key & st & Hloc & Hst & Hbn & Hr).
  pose proof (MinioStorage_Put_succeeds w st o Hbn Hon Hr) as Hput.
  unfold DistributedStorage_Put, DistributedStorage_Get. rewrite Hid, Hloc, Hst.
  destruct (APut w st (Some o)) as [r w2] eqn:Hp. cbn in Hput. subst r. cbn [fst snd].
  split; [reflexivity |]. split.
  - destruct Hready as (c & Hc & Hwf & Hown & Hpc & Hdom & Hreg).
    exists c. do 5 (split; [assumption |]).
    intros key' st' Hst'. destruct (Hreg key' st' Hst') as [Hbn' Hr']. split; [assumption |].
    replace w2 with (APut w st (Some o)).2 by now rewrite Hp.
    now apply MinioStorage_Put_keeps_ready.
  - rewrite (MinioStorage_Put_Get bucketNameError objectNameError _ _ _ _ Hp).
    rewrite (contentType_kept _ Hne Htrim). now destruct o.
Qed.

(** X8. On a ready router, [Put] of an object with an id that the client
    accepts and a plain content type (printable ASCII, not empty, no space
    at its ends) succeeds, leaves the router ready, and [Get] of the id
    then returns the object. *)
Theorem ready_Put_Get (s : DistributedStorage) (w : gmap string server) (o : Object) :
  ready s w -> String.eqb (ID o) "" = false -> objectNameError (ID o) = None ->
  plainContentType (ContentType o) = true ->
  (RPut s w (Some o)).1 = Ok tt
  /\ ready s (RPut s w (Some o)).2
  /\ RGet s (RPut s w (Some o)).2 (ID o) = Ok (Some o).
Proof using xxhash bucketNameError objectNameError. exact (ready_Put_Get_holds s w o). Qed.

(** X9. On a ready router neither [Get] nor [Put] panics: every id is
    routed to a registered adapter. *)
Theorem ready_never_panics (s : DistributedStorage) (w : gmap string server) :
  ready s w ->
  (forall id, exists key st,
      locate xxhash s id = Ok key /\ availableStorages s !! key = Some st)
  /\ (forall id msg, RGet s w id <> Panic msg)
  /\ (forall object msg, (RPut s w object).1 <> Panic msg).
Proof using xxhash bucketNameError objectNameError.
  intros Hready. split; [| split].
  - intros id. destruct (ready_locate s w id Hready) as (key & st & Hloc & Hst & _).
    eauto.
  - intros id msg. destruct (ready_locate s w id Hready) as (key & st & Hloc & Hst & _).
    unfold DistributedStorage_Get. rewrite Hloc, Hst.
    pose proof (MinioStorage_Get_no_panic w st id) as H.
    destruct (AGet w st id); try discriminate; contradiction.
  - intros object msg. unfold DistributedStorage_Put.
    destruct object as [o |]; [| discriminate].
    destruct (String.eqb (ID o) ""); [discriminate |].
    destruct (ready_locate s w (ID o) Hready) as (key & st & Hloc & Hst & _).
    rewrite Hloc, Hst. unfold MinioStorage_Put.
    destruct (client_PutObject _ _ _ _ _ _ _ _) as [[e |] w2]; discriminate.
Qed.

(** ** The router: what [Put] changes *)

Lemma RouterPut_cases (s : DistributedStorage) (w : gmap string server)
    (object : option Object) :
  (RPut s w object).2 = w
  \/ exists o st, object = Some o /\ (RPut s w object).2 = (APut w st (Some o)).2.
Proof using xxhash bucketNameError objectNameError.
  unfold DistributedStorage_Put. destruct object as [o |]; [| now left].
  destruct (String.eqb (ID o) ""); [now left |].
  destruct (locate xxhash s (ID o)) as [key | e | m | k]; try now left.
  destruct (availableStorages s !! key) as [st |]; [| now left].
  right. exists o, st. split; [reflexivity |].
  now destruct (APut w st (Some o)) as [[[] | e | m | k] w2].
Qed.

(** X10. A [Put] of one id never changes what [Get] returns for another
    id, through the router and on every adapter, whether the [Put]
    succeeds or not. *)
Theorem Put_leaves_other_ids (s : DistributedStorage) (w : gmap string server)
    (o : Object) (id' : string) :
  id' <> ID o ->
  RGet s (RPut s w (Some o)).2 id' = RGet s w id'
  /\ forall st st', AGet (APut w st (Some o)).2 st' id' = AGet w st' id'.
Proof using xxhash bucketNameError objectNameError.
  intros Hne. split; [| intros st st'; now apply MinioStorage_Put_frame].
  destruct (RouterPut_cases s w (Some o)) as [Hw | (o' & st & Ho & Hw)];
    rewrite Hw; [reflexivity |].
  injection Ho as <-. unfold DistributedStorage_Get.
  destruct (locate xxhash s id') as [key | e | m | k]; try reflexivity.
  destruct (availableStorages s !! key) as [st' |]; [| reflexivity].
  now rewrite (MinioStorage_Put_frame w st st' o id' Hne).
Qed.

(** X11. A [Put] that fails before a request is sent writes nothing.  The
    servers are as they were when the router returns "object is empty" or
    "storage node not available" or panics, and when the adapter is given
    no object or a name that the client refuses. *)
Theorem failed_Put_writes_nothing (s : DistributedStorage) (st : MinioStorage)
    (w : gmap string server) (object : option Object) :
  ((RPut s w object).1 = Err "object is empty" -> (RPut s w object).2 = w)
  /\ (forall key, (RPut s w object).1 = Err (putNodeUnavailable key) ->
      (RPut s w object).2 = w)
  /\ (forall msg, (RPut s w object).1 = Panic msg -> (RPut s w object).2 = w)
  /\ (object = None \/ bucketNameError (msBucketName st) <> None
      \/ (exists o, object = Some o /\ objectNameError (ID o) <> None) ->
      (APut w st object).2 = w).
Proof using xxhash bucketNameError objectNameError.
  assert (Hrouter : forall r : outcome unit,
            (forall key' err, r <> Err ("failed to put data using node (" +:+ key'
                                        +:+ "): " +:+ err)) ->
            (forall e, r <> Ok e) -> (RPut s w object).1 = r -> (RPut s w object).2 = w).
  { intros r Hr Hok. unfold DistributedStorage_Put. destruct object as [o |]; [| reflexivity].
    destruct (String.eqb (ID o) ""); [reflexivity |].
    destruct (locate xxhash s (ID o)) as [key | e | m | k]; try reflexivity.
    destruct (availableStorages s !! key) as [a |]; [| reflexivity].
    unfold MinioStorage_Put.
    destruct (client_PutObject _ _ _ _ _ _ _ _) as [[e |] w2]; cbn [fst snd]; intros <-.
    - now destruct (Hr key ("error put object (" +:+ msEndpoint a +:+ " | " +:+ ID o
                            +:+ "): " +:+ e)).
    - now destruct (Hok tt). }
  split; [| split; [| split]].
  - apply Hrouter; [| discriminate]. intros key' err. push_literal. discriminate.
  - intros key. apply Hrouter; [| discriminate].
    intros key' err. unfold putNodeUnavailable. push_literal. discriminate.
  - intros msg. apply Hrouter; discriminate.
  - unfold MinioStorage_Put, client_PutObject. cbv zeta.
    intros [-> | [Hbn | (o & -> & Hon)]]; [reflexivity | |].
    + destruct object as [o |]; [| reflexivity].
      now destruct (bucketNameError (msBucketName st)).
    + destruct (bucketNameError (msBucketName st)); [reflexivity |].
      now destruct (objectNameError (ID o)).
Qed.

(** A [Put] that fails later may have written: on a server that carries
    out the request but whose answer is lost, the client reports the
    failure and the object is stored. *)
Example failed_Put_has_written :
  exists endpoint objects,
    (Fixture.Put Fixture.router1 Fixture.worldUnheard (Some Fixture.hello)).1
    = Err ("failed to put data using node (" +:+ "c2#/amazin-object-storage-node-2" +:+ "): "
           +:+ "error put object (" +:+ endpoint +:+ " | object-1): context deadline exceeded")
    /\ Fixture.worldUnheard !! endpoint
       = Some (Unheard "context deadline exceeded" "ring" "treepotato" {["default" := ∅]})
    /\ (Fixture.Put Fixture.router1 Fixture.worldUnheard (Some Fixture.hello)).2 !! endpoint
       = Some (Unheard "context deadline exceeded" "ring" "treepotato"
                 {["default" := objects]})
    /\ objects !! "object-1"
       = Some (mkStored "text/plain" (list_byte_of_string "Hello, Minio!")).
Proof.
  exists "10.0.0.2:9000". eexists. vm_compute. repeat split.
Qed.

(** ** Start-up, when [Init] succeeds *)

(** X12. When [main] reaches the gateway after an [Init] that returned no
    error and registered at least one adapter, the router it serves is
    ready, and every adapter works on the bucket named by [BUCKET_NAME], or
    on "default" when the variable is not set. *)
Theorem main_serves_ready_router (env : gmap string string) (cli : option DockerClient)
    (w w' : gmap string server) (st : started) :
  main xxhash endpointError bucketNameError env cli w = (Ok st, w') ->
  initResult st = None ->
  availableStorages (served st) <> ∅ ->
  ready (served st) w'
  /\ listenAddr st = ":3000"
  /\ forall key a, availableStorages (served st) !! key = Some a ->
       msBucketName a = match env !! "BUCKET_NAME" with Some v => v | None => "default" end.
Proof using xxhash endpointError bucketNameError.
  unfold main.
  set (s0 := NewDistributedStorage cli (getEnvWithFallback env EnvBucketName "default")).
  pose proof (Init_ready_holds s0 w) as Hready.
  destruct (RInit s0 w) as [[[[] | e | m | k] s'] w1]; cbn [fst snd] in Hready;
    intros [= <- <-]; cbn [initResult served listenAddr]; try discriminate.
  intros _ Hne. destruct (Hready eq_refl Hne) as (nodes & _ & Hr & Hreg & _).
  split; [assumption |]. split; [reflexivity |].
  intros key a Ha. destruct (Hreg key a Ha) as (n & _ & _ & ->). reflexivity.
Qed.

(** ** The gateway over the router *)

Local Abbreviation RS := (routerStorage xxhash endpointError bucketNameError objectNameError).

Lemma validateObjectID_spec (id : string) :
  validateObjectID id = true
  <-> (1 <= String.length id <= 32)%nat
      /\ forallb isAlphanumeric (list_ascii_of_string id) = true.
Proof using Type.
  unfold validateObjectID, alphanumericRegex_MatchString.
  destruct (Nat.eqb (String.length id) 0) eqn:H0; cbn [orb].
  - apply Nat.eqb_eq in H0. split; [discriminate | lia].
  - apply Nat.eqb_neq in H0.
    destruct (Nat.ltb 32 (String.length id)) eqn:H32.
    + apply Nat.ltb_lt in H32. split; [discriminate | lia].
    + apply Nat.ltb_ge in H32.
      assert (Hne : String.eqb id "" = false) by (destruct id; [now destruct H0 | reflexivity]).
      rewrite Hne. cbn [negb andb].
      split; [intros H; split; [lia | exact H] | intros [_ H]; exact H].
Qed.

Lemma validateObjectID_nonempty (id : string) :
  validateObjectID id = true -> String.eqb id "" = false.
Proof using Type.
  intros [Hlen _]%validateObjectID_spec. destruct id; [cbn in Hlen; lia | reflexivity].
Qed.

(** X13. What the handlers refuse without calling the store, whatever the
    store is: an id is accepted exactly when it has 1 to 32 characters, all
    of them letters or digits; for any other id both handlers answer 400
    and the store is as it was; and a body that cannot be read makes
    [putObject] answer 400 with the store as it was. *)
Theorem gateway_rejects_before_store {St : Type} (s : Storage St) (st : St) (c : Request) :
  (validateObjectID (paramId c) = true
   <-> (1 <= String.length (paramId c) <= 32)%nat
       /\ forallb isAlphanumeric (list_ascii_of_string (paramId c)) = true)
  /\ (validateObjectID (paramId c) = false ->
      getObject s st c = Ok (JSON 400 invalidObjectID)
      /\ putObject s st c = (Ok (JSON 400 invalidObjectID), st))
  /\ (forall e, requestBody c = inl e ->
      exists message, putObject s st c = (Ok (JSON 400 message), st)).
Proof using Type.
  split; [apply validateObjectID_spec |]. split.
  - intros H. unfold getObject, putObject. now rewrite H.
  - intros e He. unfold putObject. rewrite He.
    destruct (validateObjectID (paramId c)); cbn [negb]; eauto.
Qed.

(** X14. Through the gateway over a ready router: a PUT with a valid id
    that the client accepts, a plain content type (printable ASCII, not
    empty, no space at its ends) and a body that can be read, answers 200
    and leaves the router as it is; a GET of the id then answers 200 with
    the content type and the body of the PUT. *)
Theorem gateway_Put_then_Get (s : DistributedStorage) (w : gmap string server)
    (id ct : string) (body : list byte) (c' : Request) :
  ready s w -> validateObjectID id = true -> objectNameError id = None ->
  plainContentType ct = true ->
  paramId c' = id ->
  (putObject RS (s, w) (mkRequest id ct (inr body))).1
  = Ok (JSON 200 ("Object was successfully stored with ID: " +:+ id))
  /\ (putObject RS (s, w) (mkRequest id ct (inr body))).2.1 = s
  /\ getObject RS (putObject RS (s, w) (mkRequest id ct (inr body))).2 c'
     = Ok (Blob 200 ct body).
Proof using xxhash endpointError bucketNameError objectNameError.
  intros Hready Hvalid Hon Hplain Hid.
  pose proof (validateObjectID_nonempty id Hvalid) as Hne.
  destruct (ready_Put_Get_holds s w (mkObject id ct body) Hready Hne Hon Hplain)
    as (Hput & _ & Hget).
  unfold putObject, getObject. cbn [paramId headerContentType requestBody].
  rewrite Hid, Hvalid. cbn [negb storage_Put storage_Get routerStorage].
  destruct (RPut s w (Some (mkObject id ct body))) as [r w2]. cbn [fst snd] in *. subst r.
  cbn [fst snd]. repeat split. cbn [ID] in Hget. now rewrite Hget.
Qed.

(** X15. Through the gateway over a ready router: a GET of a valid id that
    the client accepts answers 404 when no registered adapter holds an
    object under that id. *)
Theorem gateway_Get_missing (s : DistributedStorage) (w : gmap string server) (c : Request) :
  ready s w -> validateObjectID (paramId c) = true -> objectNameError (paramId c) = None ->
  (forall key st buckets objects,
     availableStorages s !! key = Some st -> connect w (msClient st) = inr buckets ->
     buckets !! msBucketName st = Some objects -> objects !! paramId c = None) ->
  getObject RS (s, w) c = Ok (JSON 404 ("Object doesn't exist: " +:+ paramId c)).
Proof using xxhash endpointError bucketNameError objectNameError.
  intros Hready Hvalid Hon Habsent.
  destruct (ready_locate s w (paramId c) Hready)
    as (key & st & Hloc & Hst & Hbn & (buckets & Hc & [objects Hb])).
  pose proof (MinioStorage_Get_absent bucketNameError objectNameError w st (paramId c)
                buckets objects Hbn Hon Hc Hb (Habsent _ _ _ _ Hst Hc Hb)) as Hget.
  unfold getObject. rewrite Hvalid. cbn [negb storage_Get routerStorage].
  unfold DistributedStorage_Get. now rewrite Hloc, Hst, Hget.
Qed.

(** ** Routing reaches the server of the located node *)

Lemma NoDup_fmap_eq {A B : Type} (f : A -> B) (l : list A) (x y : A) :
  NoDup (f <$> l) -> In x l -> In y l -> f x = f y -> x = y.
Proof using Type.
  induction l as [| a l IH]; cbn; [intros _ [] |].
  intros Hnd Hx Hy Hf. apply NoDup_cons in Hnd as [Ha Hnd].
  assert (Hin : forall z, In z l -> f z ∈ f <$> l).
  { intros z Hz. apply list_elem_of_fmap. exists z. split; [reflexivity |].
    now apply list_elem_of_In. }
  destruct Hx as [<- | Hx], Hy as [<- | Hy]; [reflexivity | | |].
  - exfalso. apply Ha. rewrite Hf. now apply Hin.
  - exfalso. apply Ha. rewrite <- Hf. now apply Hin.
  - now apply IH.
Qed.

Lemma consistent_Add_values (S : Node -> Prop) (c c' : Consistent) (member : Node) :
  S member ->
  (forall h m, ring c !! h = Some m -> S m) ->
  (forall p m, partitions c !! p = Some m -> S m) ->
  consistent_Add xxhash c member = Ok c' ->
  (forall h m, ring c' !! h = Some m -> S m)
  /\ (forall p m, partitions c' !! p = Some m -> S m).
Proof using xxhash.
  intros Hm Hring Hparts. unfold consistent_Add. case_bool_decide.
  - intros [= <-]. now split.
  - intros Hd. apply distributePartitions_inv in Hd as (Hr' & _ & _ & Hown).
    destruct (consistent_add_inv xxhash c member) as (_ & _ & Hrg).
    assert (Hnew : forall h m, ring (consistent_add xxhash c member) !! h = Some m -> S m).
    { intros h m Hh. destruct (Hrg h m Hh) as [-> | Hold]; [assumption |].
      eapply Hring; eassumption. }
    split.
    + intros h m Hh. rewrite Hr' in Hh. eapply Hnew; eassumption.
    + intros p m Hp. destruct (Hown p m Hp) as [h Hh]. eapply Hnew; eassumption.
Qed.

Lemma addAll_values (S : Node -> Prop) (nodes : list Node) :
  forall c c',
    (forall n, In n nodes -> S n) ->
    (forall h m, ring c !! h = Some m -> S m) ->
    (forall p m, partitions c !! p = Some m -> S m) ->
    addAll xxhash c nodes = Ok c' ->
    forall p m, partitions c' !! p = Some m -> S m.
Proof using xxhash.
  induction nodes as [| node rest IH]; intros c c' HS Hring Hparts H; cbn in H.
  - now injection H as <-.
  - destruct (consistent_Add xxhash c node) as [c1 | | |] eqn:Hadd; cbn in H; try discriminate.
    destruct (consistent_Add_values S c c1 node (HS node (or_introl eq_refl)) Hring Hparts Hadd)
      as [Hring1 Hparts1].
    apply (IH c1 c'); try assumption. intros n Hn. apply HS. now right.
Qed.

Lemma initHashCircle_owner (nodes : list Node) (c : Consistent) (key : list byte) (m : Node) :
  initHashCircle xxhash nodes = Ok c -> LocateKey xxhash c key = Ok (Some m) -> In m nodes.
Proof using xxhash.
  unfold initHashCircle.
  destruct (consistent_New_nil xxhash
              {| PartitionCount := Z.of_nat (length nodes); ReplicationFactor := 0;
                 Load := (5 # 4)%Q |}) as (c0 & -> & Hwf0 & Hm0 & Hp0).
  cbn [bind]. intros Hadd. unfold LocateKey, FindPartitionID.
  destruct (partitionCount c =? 0); cbn; [discriminate |]. intros [= Hl].
  apply (addAll_values (fun n => In n nodes) nodes c0 c) with (p := hasher_Sum64 xxhash key mod partitionCount c);
    try assumption.
  - intros n Hn. exact Hn.
  - intros h n Hh. destruct Hwf0 as (Hring & _). destruct (Hring h n Hh) as [x Hx].
    now rewrite Hm0, lookup_empty in Hx.
  - intros p n Hp. now rewrite Hp0, lookup_empty in Hp.
Qed.

(** X16. After a successful [Init] over nodes with pairwise different
    tokens, the member that [LocateKey] returns for a key is one of the
    discovered nodes, and the adapter registered under its token is the one
    built for that very node: its endpoint, its credentials, the router's
    bucket. *)
Theorem located_member_own_adapter (s : DistributedStorage) (w : gmap string server)
    (nodes : list Node) (c : Consistent) (key : list byte) (m : Node) :
  (RInit s w).1.1 = Ok tt ->
  getAvailableStorageNodes (client s) = Ok nodes ->
  NoDup (Node_String <$> nodes) ->
  circle (RInit s w).1.2 = Some c ->
  LocateKey xxhash c key = Ok (Some m) ->
  In m nodes
  /\ availableStorages (RInit s w).1.2 !! Node_String m = Some (adapterOf (bucketName s) m).
Proof using xxhash endpointError bucketNameError.
  destruct (RInit s w) as [[r s'] w'] eqn:Hinit. cbn [fst snd]. intros -> Hnodes Hnd Hcirc Hl.
  apply Init_ok_inv in Hinit as (nodes' & s1 & c' & Hnodes' & Hst & Hc & ->).
  rewrite Hnodes in Hnodes'. injection Hnodes' as <-.
  cbn in Hcirc. injection Hcirc as ->.
  pose proof (initHashCircle_owner _ _ _ _ Hc Hl) as Hin. split; [assumption |].
  unfold initStorages in Hst.
  pose proof (initStorages_loop_dom endpointError bucketNameError bucketNameError
                _ _ _ _ _ Hst) as Hdom.
  cbn in Hdom. rewrite dom_empty_L, union_empty_r_L in Hdom.
  apply initStorages_loop_registry in Hst as (Hreg & _ & _).
  cbn [bucketName setStorages availableStorages setCircle] in *.
  assert (Hsome : is_Some (availableStorages s1 !! Node_String m)).
  { apply elem_of_dom. rewrite Hdom. unfold tokens.
    apply elem_of_list_to_set, list_elem_of_fmap. exists m. split; [reflexivity |].
    now apply list_elem_of_In. }
  destruct Hsome as [st Hst]. rewrite Hst.
  destruct (Hreg _ _ Hst) as [Hold | (n & Hn & Htok & -> & _)];
    [now rewrite lookup_empty in Hold |].
  now rewrite (NoDup_fmap_eq Node_String nodes m n Hnd Hin Hn Htok).
Qed.

(** With a repeated token the registry keeps the adapter of the last node
    and the ring keeps the first node as the member. *)
Example repeated_token_keeps_last_adapter :
  let n1 := mkNode "c1" "/amazin-object-storage-node-1" "10.0.0.1:9000" "ring" "treepotato" in
  let n2 := mkNode "c1" "/amazin-object-storage-node-1" "10.0.0.2:9000" "ring" "treepotato" in
  forall s w s' w',
    initStorages endpointError bucketNameError s w [n1; n2] = (Ok tt, s', w') ->
    availableStorages s' !! Node_String n1 = Some (adapterOf (bucketName s) n2).
Proof using Type.
  intros n1 n2 s w s' w'. unfold initStorages. cbn [initStorages_loop].
  destruct (initStorageNode _ _ _ w n1) as [[st1 | | |] w1] eqn:H1; try discriminate.
  destruct (initStorageNode _ _ _ w1 n2) as [[st2 | | |] w2] eqn:H2; try discriminate.
  apply initStorageNode_ok in H2 as (-> & _). intros [= <- <-]. cbn.
  now rewrite lookup_insert_eq.
Qed.

End Serving.

(** ** The further properties on the concrete deployment *)

Lemma keyDoesNotExist_substring_witness :
  keyDoesNotExist
    ("error get object (10.0.0.1:9000 | a): " +:+ "The specified key does not exist." +:+ "")
  = true.
Proof.
  apply (proj2 (keyDoesNotExist_substring "The specified key does not exist.")).
  reflexivity.
Defined.

Lemma MinioStorage_Init_ensures_bucket_witness :
  bucketReady (MinioStorage_Init Fixture.anyBucket Fixture.world Fixture.adapter1).2
    Fixture.adapter1
  /\ MinioStorage_Init Fixture.anyBucket
       (MinioStorage_Init Fixture.anyBucket Fixture.world Fixture.adapter1).2 Fixture.adapter1
     = (Ok tt, (MinioStorage_Init Fixture.anyBucket Fixture.world Fixture.adapter1).2).
Proof.
  destruct (MinioStorage_Init_ensures_bucket Fixture.anyBucket Fixture.world
              Fixture.adapter1) as (H1 & H2 & _); [vm_compute; reflexivity |].
  split; [exact H1 | exact H2].
Defined.

Lemma adapter_Init_Put_Get_witness :
  MinioStorage_Get Fixture.anyBucket Fixture.nonEmptyName
    (MinioStorage_Put Fixture.anyBucket Fixture.nonEmptyName
       (MinioStorage_Init Fixture.anyBucket Fixture.world Fixture.adapter1).2
       Fixture.adapter1 (Some Fixture.hello)).2
    Fixture.adapter1 "object-1"
  = Ok (Some Fixture.hello).
Proof.
  apply (adapter_Init_Put_Get Fixture.anyBucket Fixture.nonEmptyName Fixture.world
           Fixture.adapter1 Fixture.hello); vm_compute; reflexivity.
Defined.

Lemma fixture_registry_not_empty :
  availableStorages (Fixture.Init Fixture.router0 Fixture.world).1.2 <> ∅.
Proof.
  intros H. apply (f_equal (fun m => m !! "c1#/amazin-object-storage-node-1")) in H.
  vm_compute in H. discriminate H.
Defined.

Lemma fixture_ready :
  routerReady Fixture.anyBucket Fixture.router1 Fixture.world1.
Proof.
  destruct (Init_ready_holds Fixture.fnv1 Fixture.anyEndpoint Fixture.anyBucket
              Fixture.router0 Fixture.world)
    as (nodes & _ & Hr & _); [vm_compute; reflexivity | exact fixture_registry_not_empty |].
  exact Hr.
Defined.

Lemma Init_makes_ready_witness :
  exists nodes,
    getAvailableStorageNodes (client Fixture.router0) = Ok nodes
    /\ routerReady Fixture.anyBucket Fixture.router1 Fixture.world1
    /\ (forall key st, availableStorages Fixture.router1 !! key = Some st ->
          exists n, In n nodes /\ key = Node_String n /\ st = adapterOf "default" n)
    /\ (forall n, In n nodes -> is_Some (availableStorages Fixture.router1 !! Node_String n)).
Proof.
  apply (Init_makes_ready Fixture.fnv1 Fixture.anyEndpoint Fixture.anyBucket
           Fixture.router0 Fixture.world);
    [vm_compute; reflexivity | exact fixture_registry_not_empty].
Defined.

Lemma ready_Put_Get_witness :
  (Fixture.Put Fixture.router1 Fixture.world1 (Some Fixture.hello)).1 = Ok tt
  /\ routerReady Fixture.anyBucket Fixture.router1
       (Fixture.Put Fixture.router1 Fixture.world1 (Some Fixture.hello)).2
  /\ Fixture.Get Fixture.router1
       (Fixture.Put Fixture.router1 Fixture.world1 (Some Fixture.hello)).2 "object-1"
     = Ok (Some Fixture.hello).
Proof.
  apply (ready_Put_Get Fixture.fnv1 Fixture.anyBucket Fixture.nonEmptyName
           Fixture.router1 Fixture.world1 Fixture.hello);
    [exact fixture_ready | reflexivity | reflexivity | reflexivity].
Defined.

Lemma ready_never_panics_witness :
  (exists key st,
     locate Fixture.fnv1 Fixture.router1 "object-1" = Ok key
     /\ availableStorages Fixture.router1 !! key = Some st)
  /\ (forall id msg, Fixture.Get Fixture.router1 Fixture.world1 id <> Panic msg).
Proof.
  destruct (ready_never_panics Fixture.fnv1 Fixture.anyBucket Fixture.nonEmptyName
              Fixture.router1 Fixture.world1 fixture_ready) as (H1 & H2 & _).
  split; [exact (H1 "object-1") | exact H2].
Defined.

Lemma Put_leaves_other_ids_witness :
  Fixture.Get Fixture.router1
    (Fixture.Put Fixture.router1 Fixture.world1 (Some Fixture.hello)).2 "object-2"
  = Fixture.Get Fixture.router1 Fixture.world1 "object-2".
Proof.
  refine (proj1 (Put_leaves_other_ids Fixture.fnv1 Fixture.anyBucket Fixture.nonEmptyName
                   Fixture.router1 Fixture.world1 Fixture.hello "object-2" _)).
  discriminate.
Defined.

Lemma failed_Put_writes_nothing_witness :
  (Fixture.Put Fixture.router1 Fixture.world1 (Some (mkObject "" "text/plain" []))).2
  = Fixture.world1.
Proof.
  apply (proj1 (failed_Put_writes_nothing Fixture.fnv1 Fixture.anyBucket Fixture.nonEmptyName
                  Fixture.router1 Fixture.adapter1 Fixture.world1
                  (Some (mkObject "" "text/plain" [])))).
  reflexivity.
Defined.

Lemma main_serves_ready_router_witness :
  routerReady Fixture.anyBucket Fixture.router1 Fixture.world1
  /\ listenAddr (mkStarted ":3000" Fixture.router1 None) = ":3000"
  /\ forall key a, availableStorages Fixture.router1 !! key = Some a ->
       msBucketName a = "default".
Proof.
  destruct (main_serves_ready_router Fixture.fnv1 Fixture.anyEndpoint Fixture.anyBucket
              ∅ (Some Fixture.docker) Fixture.world Fixture.world1
              (mkStarted ":3000" Fixture.router1 None)) as (H1 & H2 & H3);
    [vm_compute; reflexivity | reflexivity | exact fixture_registry_not_empty |].
  split; [exact H1 | split; [exact H2 | intros key a Ha; exact (H3 key a Ha)]].
Defined.

Lemma gateway_rejects_before_store_witness :
  getObject mockStorage Scenario.emptyStore (Scenario.get "invalid@ID")
  = Ok (JSON 400 invalidObjectID)
  /\ putObject mockStorage Scenario.emptyStore
       (Scenario.put "invalid@ID" (inr Scenario.testContent))
     = (Ok (JSON 400 invalidObjectID), Scenario.emptyStore).
Proof.
  split.
  - apply (proj1 (proj2 (gateway_rejects_before_store mockStorage Scenario.emptyStore
                           (Scenario.get "invalid@ID")))). reflexivity.
  - apply (proj1 (proj2 (gateway_rejects_before_store mockStorage Scenario.emptyStore
                           (Scenario.put "invalid@ID" (inr Scenario.testContent))))).
    reflexivity.
Defined.

Lemma gateway_Put_then_Get_witness :
  getObject Scenario.gateway
    (putObject Scenario.gateway (Fixture.router1, Fixture.world1)
       (mkRequest "validID" "text/plain" (inr Scenario.testContent))).2
    (Scenario.get "validID")
  = Ok (Blob 200 "text/plain" Scenario.testContent).
Proof.
  apply (gateway_Put_then_Get Fixture.fnv1 Fixture.anyEndpoint Fixture.anyBucket
           Fixture.nonEmptyName Fixture.router1 Fixture.world1 "validID" "text/plain"
           Scenario.testContent (Scenario.get "validID"));
    [exact fixture_ready | reflexivity | reflexivity | reflexivity | reflexivity].
Defined.

Lemma gateway_Get_missing_witness :
  getObject Scenario.gateway (Fixture.router1, Fixture.world1) (Scenario.get "missingID")
  = Ok (JSON 404 "Object doesn't exist: missingID").
Proof.
  apply (gateway_Get_missing Fixture.fnv1 Fixture.anyEndpoint Fixture.anyBucket
           Fixture.nonEmptyName Fixture.router1 Fixture.world1 (Scenario.get "missingID"));
    [exact fixture_ready | reflexivity | reflexivity |].
  intros key st buckets objects Hst Hc Hb.
  destruct (Init_ready_holds Fixture.fnv1 Fixture.anyEndpoint Fixture.anyBucket
              Fixture.router0 Fixture.world)
    as (nodes & Hnodes & _ & Hreg & _); [vm_compute; reflexivity | exact fixture_registry_not_empty |].
  destruct (Hreg key st Hst) as (n & Hin & _ & ->).
  vm_compute in Hnodes. injection Hnodes as <-.
  destruct Hin as [<- | [<- | [<- | []]]]; vm_compute in Hc; injection Hc as <-;
    vm_compute in Hb; injection Hb as <-; reflexivity.
Defined.

(** The tables of [TestGetObject] and [TestPutObject]. *)

Example TestGetObject_table :
  getObject mockStorage Scenario.noStore (Scenario.get "invalid@ID")
  = Ok (JSON 400 "Invalid objectID. Must be alfa-numeric string between 1 and 32 characters.")
  /\ getObject mockStorage Scenario.failingStore (Scenario.get "validID")
     = Ok (JSON 500 "Error retrieving object: validID")
  /\ getObject mockStorage Scenario.emptyStore (Scenario.get "missingID")
     = Ok (JSON 404 "Object doesn't exist: missingID")
  /\ getObject mockStorage Scenario.oneObject (Scenario.get "validID")
     = Ok (Blob 200 "text/plain" Scenario.testContent).
Proof. repeat split; vm_compute; reflexivity. Qed.

Example TestPutObject_table :
  (putObject mockStorage Scenario.noStore
     (Scenario.put "invalid@ID" (inr Scenario.testContent))).1
  = Ok (JSON 400 "Invalid objectID. Must be alfa-numeric string between 1 and 32 characters.")
  /\ (putObject mockStorage Scenario.noStore (Scenario.put "validID" (inl "read error"))).1
     = Ok (JSON 400 "Cannot read request body")
  /\ (putObject mockStorage Scenario.failingStore
        (Scenario.put "validID" (inr Scenario.testContent))).1
     = Ok (JSON 500 "Cannot store object: validID")
  /\ (putObject mockStorage Scenario.emptyStore
        (Scenario.put "validID" (inr Scenario.testContent))).1
     = Ok (JSON 200 "Object was successfully stored with ID: validID").
Proof. repeat split; vm_compute; reflexivity. Qed.

(** An id of 33 characters and the empty id are refused; 32 letters and
    digits are accepted. *)
Example validateObjectID_bounds :
  validateObjectID "" = false
  /\ validateObjectID "543b8e0ef09346689eb33adbbbee452a" = true
  /\ validateObjectID "543b8e0ef09346689eb33adbbbee452a0" = false
  /\ validateObjectID "object-1" = false.
Proof. repeat split. Qed.

Lemma located_member_own_adapter_witness :
  exists c m,
    circle Fixture.router1 = Some c
    /\ LocateKey Fixture.fnv1 c (list_byte_of_string "object-1") = Ok (Some m)
    /\ In m [ mkNode "c1" "/amazin-object-storage-node-1" "10.0.0.1:9000" "ring" "treepotato";
              mkNode "c2" "/amazin-object-storage-node-2" "10.0.0.2:9000" "ring" "treepotato";
              mkNode "c3" "/amazin-object-storage-node-3" "10.0.0.3:9000" "ring" "treepotato" ]
    /\ availableStorages Fixture.router1 !! Node_String m = Some (adapterOf "default" m).
Proof.
  eexists _, _. split; [vm_compute; reflexivity |]. split; [vm_compute; reflexivity |].
  eapply (located_member_own_adapter Fixture.fnv1 Fixture.anyEndpoint Fixture.anyBucket
            Fixture.router0 Fixture.world _ _ (list_byte_of_string "object-1"));
    [vm_compute; reflexivity | reflexivity | | vm_compute; reflexivity | vm_compute; reflexivity].
  cbn. repeat (apply NoDup_cons; split; [rewrite ?elem_of_cons, elem_of_nil;
                                         intros H; repeat destruct H as [H | H];
                                         try discriminate H; exact H |]).
  apply NoDup_nil_2.
Defined.
